(** * Neuroevolution in Flappy Bird: the simulation core

    A shallow embedding of [NE/Entities/Bird.py], [NE/Entities/Pipe.py],
    [NE/Entities/Base.py], the simulation part of [NE/Engine/Engine.py] and
    the loading of the assets of [main.py], with the properties of the
    specification stated over it, and then those of the rest of the code.
    What pygame and neat do is not part of the model: the window, the
    clock, the events, the files, the evolution of the genomes.

    Conventions.
    - Python [int] is [Z].  Python [float] is [Q]: every float the program
      computes is a sum of integers, of multiples of [1.5] and of multiples
      of [0.1], and the embedding works with the exact rational values (no
      rounding error is modelled).
    - A method that assigns to [self] is a function from the object to the
      object; a method that only reads is a function to its result.
    - Genome objects are shared with the optimizer: the engine holds
      references to them.  A genome is identified by its key and its
      [fitness] attribute lives in a store indexed by keys.
    - Python exceptions are the [Raise] outcome of the [outcome] monad. *)

From Stdlib Require Import ZArith QArith Qabs Qround Lia Lqa Bool List.
From stdpp Require Import base tactics option list.

Open Scope Z_scope.

(** ** Numbers *)

Definition Qltb (a b : Q) : bool := negb (Qle_bool b a).

(** Python's [round] on a float: to the nearest integer, ties to even. *)
Definition py_round (q : Q) : Z :=
  let f := Qfloor q in
  match Qcompare (q - inject_Z f) (1 # 2) with
  | Lt => f
  | Gt => f + 1
  | Eq => if Z.even f then f else f + 1
  end.

(** ** Exceptions

    A computation of the engine ends with a value or with a Python
    exception. *)

Inductive exn := IndexError | ZeroDivisionError.

Inductive outcome (A : Type) :=
| Ok (a : A)
| Raise (e : exn).
Arguments Ok {A} a.
Arguments Raise {A} e.

Definition bind {A B : Type} (m : outcome A) (f : A -> outcome B) : outcome B :=
  match m with
  | Ok a => f a
  | Raise e => Raise e
  end.

Notation "x <- m ;; k" := (bind m (fun x => k))
  (at level 100, m at next level, right associativity).

(** [l[i]] on a Python list, for [i] that is not negative. *)
Definition getitem {A : Type} (l : list A) (i : nat) : outcome A :=
  match l !! i with
  | Some a => Ok a
  | None => Raise IndexError
  end.

(** [l.pop(i)], the list that is left. *)
Definition pop {A : Type} (l : list A) (i : nat) : outcome (list A) :=
  match l !! i with
  | Some _ => Ok (delete i l)
  | None => Raise IndexError
  end.

(** [f] called [n] times in a row, up to the first exception. *)
Fixpoint times {A : Type} (n : nat) (f : A -> outcome A) (a : A) : outcome A :=
  match n with
  | O => Ok a
  | S n' => a' <- f a ;; times n' f a'
  end.

(** ** Surfaces and masks (pygame)

    A surface is known to the core by its dimensions and by the pixels that
    are opaque enough to count for the mask. *)

Record Surface := mkSurface {
  get_width : Z;
  get_height : Z;
  solid : list (Z * Z)
}.

Definition Mask := list (Z * Z).

(** [pygame.mask.from_surface] *)
Definition from_surface (s : Surface) : Mask := solid s.

(** [pygame.transform.flip(image, False, True)]: mirrored top to bottom. *)
Definition flip (s : Surface) : Surface :=
  mkSurface (get_width s) (get_height s)
            (map (fun p => (fst p, get_height s - 1 - snd p)) (solid s)).

Definition pixel_eqb (p q : Z * Z) : bool :=
  (fst p =? fst q) && (snd p =? snd q).

(** [Mask.overlap(other, offset)], as a truth value: some set bit of [self]
    lies on a set bit of [other], [other] being placed at [offset] in the
    coordinates of [self]. *)
Definition overlap (self other : Mask) (offset : Z * Z) : bool :=
  existsb (fun p =>
    existsb (pixel_eqb (fst p - fst offset, snd p - snd offset)) other) self.

(** ** Bird.py *)

Module Bird.

Definition BIRD_JUMP_VELOCITY : Z := -10.
Definition BIRD_TERMINAL_VELOCITY : Z := 16.
Definition BIRD_MAX_ROTATION : Z := 25.
Definition BIRD_OFFSET : Z := 680.

(** [agent] is not an attribute of the Python object: it stands for the
    identity of the object, the key of the genome the bird was created
    for. *)
Record t := mk {
  agent : Z;
  position : Z * Q;
  rotation : Z;
  velocity : Z;
  jump_position : Q;
  animation_frame : Z;
  tick_frame : Z;
  images : list Surface;
  image : Surface
}.

(** [velocity * tick + 1.5 * tick**2] *)
Definition formula (v tick : Z) : Q :=
  (inject_Z (v * tick) + (3 # 2) * inject_Z (tick ^ 2))%Q.

(** The [distance] that [move] adds to [position[1]]. *)
Definition distance (b : t) : Q :=
  let tick := tick_frame b + 1 in
  let d := formula (velocity b) tick in
  if Qle_bool (inject_Z BIRD_TERMINAL_VELOCITY) d
  then inject_Z BIRD_TERMINAL_VELOCITY else d.

Definition move (b : t) : t :=
  let tick := tick_frame b + 1 in
  let d := distance b in
  let y := (snd (position b) + d)%Q in
  mk (agent b) (fst (position b), y)
     (if Qltb d 0 || Qltb y (jump_position b)
      then BIRD_MAX_ROTATION else - BIRD_MAX_ROTATION)
     (velocity b) (jump_position b) (animation_frame b) tick
     (images b) (image b).

Definition jump (b : t) : t :=
  mk (agent b) (position b) (rotation b)
     BIRD_JUMP_VELOCITY (snd (position b)) (animation_frame b) 0
     (images b) (image b).

Definition hits_border (b : t) : bool :=
  Qle_bool (inject_Z BIRD_OFFSET)
           (snd (position b) + inject_Z (get_height (image b)))
  || Qltb (snd (position b)) 0.

Definition get_mask (b : t) : Mask := from_surface (image b).

(** [Bird(position, images)] *)
Definition new (key : Z) (pos : Z * Q) (imgs : list Surface) : outcome t :=
  img <- getitem imgs 0 ;;
  Ok (mk key pos 0 0 (snd pos) 0 0 imgs img).

(** [draw], for what it does to the bird: the next animation image.  The
    blit on the window is left out. *)
Definition draw (b : t) : outcome t :=
  let frame := animation_frame b + 1 in
  match images b with
  | [] => Raise ZeroDivisionError
  | _ =>
      img <- getitem (images b) (Z.to_nat (frame mod Z.of_nat (length (images b)))) ;;
      Ok (mk (agent b) (position b) (rotation b) (velocity b) (jump_position b)
             frame (tick_frame b) (images b) img)
  end.

End Bird.

(** ** Pipe.py *)

Module Pipe.

Definition PIPE_GAP : Z := 300.
Definition PIPE_VELOCITY : Z := 5.
Definition PIPE_MIN_HEIGHT : Z := 50.
Definition PIPE_MAX_HEIGHT : Z := 450.

(** [mini_pipes] and [position_y] are lists of two elements in the source,
    read at the indices 0 and 1 only: pairs here. *)
Record t := mk {
  position_x : Z;
  is_passed : bool;
  mini_pipes : Surface * Surface;
  position_y : Z * Z;
  height : Z
}.

(** [Pipe(position_x, image)]; [drawn] is what
    [randrange(PIPE_MIN_HEIGHT, PIPE_MAX_HEIGHT)] returns in [__init_pipe]. *)
Definition new (x : Z) (img : Surface) (drawn : Z) : t :=
  let minis := (img, flip img) in
  mk x false minis
     (drawn + PIPE_GAP, drawn - get_height (snd minis))
     drawn.

Definition move (p : t) : t :=
  mk (position_x p - PIPE_VELOCITY) (is_passed p) (mini_pipes p)
     (position_y p) (height p).

Definition is_collision (p : t) (bird : Bird.t) : bool :=
  let bird_mask := Bird.get_mask bird in
  let masks := (from_surface (fst (mini_pipes p)),
                from_surface (snd (mini_pipes p))) in
  let offsets :=
    ((position_x p - fst (Bird.position bird),
      fst (position_y p) - py_round (snd (Bird.position bird))),
     (position_x p - fst (Bird.position bird),
      snd (position_y p) - py_round (snd (Bird.position bird)))) in
  let bottom_overlap := overlap bird_mask (fst masks) (fst offsets) in
  let top_overlap := overlap bird_mask (snd masks) (snd offsets) in
  bottom_overlap || top_overlap.

Definition is_window_passed (p : t) : bool :=
  position_x p + get_width (fst (mini_pipes p)) <? 0.

(** [is_bird_passed] assigns to [self.is_passed] and returns it: the pipe
    after the call, and the result. *)
Definition is_bird_passed (p : t) (bird : Bird.t) : t * bool :=
  let p' := if position_x p <? fst (Bird.position bird)
            then mk (position_x p) true (mini_pipes p) (position_y p) (height p)
            else p in
  (p', is_passed p').

(** [draw]: the blits on the window, in order, each an image and where its
    top left corner goes. *)
Definition draw (p : t) : list (Surface * (Z * Z)) :=
  [(fst (mini_pipes p), (position_x p, fst (position_y p)));
   (snd (mini_pipes p), (position_x p, snd (position_y p)))].

End Pipe.

(** ** Engine.py *)

Module Engine.

Definition BIRD_POSITION_X : Z := 220.
Definition BIRD_POSITION_Y : Z := 350.
Definition BASE_POSITION_Y : Z := 650.
Definition PIPE_POSITION_X : Z := 650.
Definition FITNESS_INCREASE_PASS : Q := 5.
Definition FITNESS_INCREASE_LIVE : Q := 1 # 10.
Definition DECISION_BORDER : Q := 1 # 2.
Definition FITNESS_DECREASE : Q := 1.

Inductive AssetType := BIRD_IMAGE | BASE_IMAGE | BACKGROUND_IMAGE | PIPE_IMAGE.

Definition AssetType_eqb (a b : AssetType) : bool :=
  match a, b with
  | BIRD_IMAGE, BIRD_IMAGE | BASE_IMAGE, BASE_IMAGE
  | BACKGROUND_IMAGE, BACKGROUND_IMAGE | PIPE_IMAGE, PIPE_IMAGE => true
  | _, _ => false
  end.

(** A [FeedForwardNetwork]: [activate] is [activate(inputs)[0]].
    [net_agent] stands for the identity of the object, the key of the
    genome the network was created from. *)
Record Network := mkNetwork {
  net_agent : Z;
  activate : Q * Q * Q -> Q
}.

(** The calls the controller makes on the objects of an agent, in the order
    in which it makes them. *)
Inductive event :=
| Move (agent : Z)
| Activate (agent : Z) (inputs : Q * Q * Q)
| Jump (agent : Z)
| IsCollision (agent : Z)
| IsBirdPassed (agent : Z) (answer : bool)
| HitsBorder (agent : Z).

(** [genomes] holds references to the genome objects of the optimizer, and
    [fitness] is the [fitness] attribute of every genome object.  [calls] is
    not an attribute of the Python object: the history of the calls made. *)
Record t := mk {
  assets : list (AssetType * Surface);
  birds : list Bird.t;
  pipes : list Pipe.t;
  score : Z;
  networks : list Network;
  genomes : list Z;
  fitness : Z -> Q;
  calls : list event
}.

Definition set_birds (bs : list Bird.t) (e : t) : t :=
  mk (assets e) bs (pipes e) (score e) (networks e) (genomes e) (fitness e) (calls e).

Definition set_pipes (ps : list Pipe.t) (e : t) : t :=
  mk (assets e) (birds e) ps (score e) (networks e) (genomes e) (fitness e) (calls e).

Definition set_score (n : Z) (e : t) : t :=
  mk (assets e) (birds e) (pipes e) n (networks e) (genomes e) (fitness e) (calls e).

Definition set_networks (ns : list Network) (e : t) : t :=
  mk (assets e) (birds e) (pipes e) (score e) ns (genomes e) (fitness e) (calls e).

Definition set_genomes (gs : list Z) (e : t) : t :=
  mk (assets e) (birds e) (pipes e) (score e) (networks e) gs (fitness e) (calls e).

Definition set_fitness (f : Z -> Q) (e : t) : t :=
  mk (assets e) (birds e) (pipes e) (score e) (networks e) (genomes e) f (calls e).

Definition log (ev : event) (e : t) : t :=
  mk (assets e) (birds e) (pipes e) (score e) (networks e) (genomes e) (fitness e)
     (calls e ++ [ev]).

(** [genome.fitness = v] on the genome object with key [g]. *)
Definition assign (g : Z) (v : Q) (f : Z -> Q) : Z -> Q :=
  fun k => if k =? g then v else f k.

(** [Engine(window_size)] *)
Definition new : t := mk [] [] [] 0 [] [] (fun _ => 0%Q) [].

(** [load_asset], the surface being what pygame loaded and scaled. *)
Definition load_asset (asset_type : AssetType) (surface : Surface) (e : t) : t :=
  mk (assets e ++ [(asset_type, surface)]) (birds e) (pipes e) (score e)
     (networks e) (genomes e) (fitness e) (calls e).

Definition get_assets (e : t) (asset_type : AssetType) : list Surface :=
  map snd (List.filter (fun a => AssetType_eqb (fst a) asset_type) (assets e)).

(** [for i, x in enumerate(get(s)): s = body(i, x, s)], where the body may
    change the list it iterates over: the list iterator keeps an index,
    reads the list as it is when it comes back, and stops when the index is
    out of range.  [n] bounds the number of iterations: [loop_upto] is the
    state after the first [n] iterations, or after the loop when that one
    ends earlier. *)
Fixpoint loop_upto {S A : Type} (get : S -> list A)
    (body : nat -> A -> S -> outcome S) (n i : nat) (s : S) : outcome S :=
  match n with
  | O => Ok s
  | Datatypes.S n' =>
      match get s !! i with
      | None => Ok s
      | Some x => s' <- body i x s ;; loop_upto get body n' (Datatypes.S i) s'
      end
  end.

(** The whole loop.  No body of the engine makes its list longer, so the
    loop is over after as many iterations as the list has elements at the
    start ([loop_upto_more]). *)
Definition for_enumerate {S A : Type} (get : S -> list A)
    (body : nat -> A -> S -> outcome S) (s : S) : outcome S :=
  loop_upto get body (length (get s)) 0 s.

(** *** emulate_birds *)

Definition current_pipe_index (e : t) : nat :=
  match birds e, pipes e with
  | bird0 :: _, pipe0 :: _ :: _ =>
      if Pipe.position_x pipe0 + get_width (snd (Pipe.mini_pipes pipe0))
         <? fst (Bird.position bird0)
      then 1%nat else 0%nat
  | _, _ => 0%nat
  end.

Definition sensors (bird : Bird.t) (pipe : Pipe.t) : Q * Q * Q :=
  let y := snd (Bird.position bird) in
  (y,
   Qabs (y - inject_Z (fst (Pipe.position_y pipe))),
   Qabs (y - inject_Z (Pipe.height pipe)))%Q.

(** The body of the loop of [emulate_birds]; the bird object is changed in
    place, at its index in the list. *)
Definition emulate_bird (current : nat) (i : nat) (bird : Bird.t) (e : t)
  : outcome t :=
  let bird := Bird.move bird in
  let e := log (Move (Bird.agent bird)) (set_birds (<[i := bird]> (birds e)) e) in
  g <- getitem (genomes e) i ;;
  let e := set_fitness (assign g (fitness e g + FITNESS_INCREASE_LIVE)%Q (fitness e)) e in
  net <- getitem (networks e) i ;;
  pipe <- getitem (pipes e) current ;;
  let inputs := sensors bird pipe in
  let output := activate net inputs in
  let e := log (Activate (net_agent net) inputs) e in
  if Qltb DECISION_BORDER output
  then Ok (log (Jump (Bird.agent bird))
               (set_birds (<[i := Bird.jump bird]> (birds e)) e))
  else Ok e.

Definition emulate_birds (e : t) : outcome t :=
  for_enumerate birds (emulate_bird (current_pipe_index e)) e.

(** *** move_pipes *)

(** The three [pop(i)] of a removal. *)
Definition remove_agent (i : nat) (e : t) : outcome t :=
  bs <- pop (birds e) i ;;
  ns <- pop (networks e) i ;;
  gs <- pop (genomes e) i ;;
  Ok (set_genomes gs (set_networks ns (set_birds bs e))).

(** What is done when [pipe.is_collision(bird)] holds. *)
Definition on_collision (i : nat) (e : t) : outcome t :=
  g <- getitem (genomes e) i ;;
  remove_agent i
    (set_fitness (assign g (fitness e g - FITNESS_DECREASE)%Q (fitness e)) e).

(** The body of the loop over the birds, for one pipe: the engine, the pipe
    and [create_new_pipe]. *)
Definition collide (i : nat) (bird : Bird.t) (s : t * Pipe.t * bool)
  : outcome (t * Pipe.t * bool) :=
  let '(e, pipe, create_new_pipe) := s in
  let e := log (IsCollision (Bird.agent bird)) e in
  e <- (if Pipe.is_collision pipe bird then on_collision i e else Ok e) ;;
  if negb (Pipe.is_passed pipe)
  then let (pipe, passed) := Pipe.is_bird_passed pipe bird in
       Ok (log (IsBirdPassed (Bird.agent bird) passed) e, pipe,
           if passed then true else create_new_pipe)
  else Ok (e, pipe, create_new_pipe).

Definition scan_birds (s : t * Pipe.t * bool) : outcome (t * Pipe.t * bool) :=
  for_enumerate (fun s => birds (fst (fst s))) collide s.

(** The loop over the pipes.  The list of pipes does not change during it;
    every pipe object is changed in place, and comes out with the answer to
    whether it was put in [pipes_to_remove]. *)
Fixpoint scan_pipes (ps : list Pipe.t) (e : t) (create_new_pipe : bool)
  : outcome (list (Pipe.t * bool) * t * bool) :=
  match ps with
  | [] => Ok ([], e, create_new_pipe)
  | pipe :: rest =>
      s <- scan_birds (e, pipe, create_new_pipe) ;;
      let '(e, pipe, create_new_pipe) := s in
      let to_remove := Pipe.is_window_passed pipe in
      let pipe := Pipe.move pipe in
      r <- scan_pipes rest e create_new_pipe ;;
      let '(rest, e, create_new_pipe) := r in
      Ok ((pipe, to_remove) :: rest, e, create_new_pipe)
  end.

(** [for genome in self.genomes: genome.fitness += FITNESS_INCREASE_PASS] *)
Definition reward_pass (gs : list Z) (f : Z -> Q) : Z -> Q :=
  fold_left (fun f g => assign g (f g + FITNESS_INCREASE_PASS)%Q f) gs f.

(** What is done when [create_new_pipe] holds, on the pipes with their
    marks; [drawn] is the height the new pipe draws. *)
Definition on_pass (drawn : Z) (marked : list (Pipe.t * bool)) (e : t)
  : outcome (list (Pipe.t * bool) * t) :=
  pipe_image <- getitem (get_assets e PIPE_IMAGE) 0 ;;
  Ok (marked ++ [(Pipe.new PIPE_POSITION_X pipe_image drawn, false)],
      set_fitness (reward_pass (genomes e) (fitness e))
                  (set_score (score e + 1) e)).

Definition check_border (i : nat) (bird : Bird.t) (e : t) : outcome t :=
  let e := log (HitsBorder (Bird.agent bird)) e in
  if Bird.hits_border bird then remove_agent i e else Ok e.

Definition scan_border (e : t) : outcome t :=
  for_enumerate birds check_border e.

(** [self.pipes.remove(pipe_to_remove)] removes the object itself, the
    pipes being distinct objects: the marked pipes go. *)
Definition move_pipes (drawn : Z) (e : t) : outcome t :=
  r <- scan_pipes (pipes e) e false ;;
  let '(marked, e, create_new_pipe) := r in
  r <- (if create_new_pipe then on_pass drawn marked e else Ok (marked, e)) ;;
  let '(marked, e) := r in
  let e := set_pipes (map fst (List.filter (fun p => negb (snd p)) marked)) e in
  scan_border e.

(** *** draw_window, for what it does to the birds *)

Fixpoint draw_birds (bs : list Bird.t) : outcome (list Bird.t) :=
  match bs with
  | [] => Ok []
  | b :: rest =>
      b <- Bird.draw b ;;
      rest <- draw_birds rest ;;
      Ok (b :: rest)
  end.

Definition draw_window (e : t) : outcome t :=
  bs <- draw_birds (birds e) ;;
  Ok (set_birds bs e).

(** *** run_ne *)

(** The body of the loop over the genomes of the generation.  [brain g] is
    what the network created from the genome [g] computes. *)
Definition add_agent (brain : Z -> Q * Q * Q -> Q) (bird_images : list Surface)
    (e : t) (genome : Z) : outcome t :=
  let e := set_fitness (assign genome 0%Q (fitness e)) e in
  let e := set_networks (networks e ++ [mkNetwork genome (brain genome)]) e in
  bird <- Bird.new genome (BIRD_POSITION_X, inject_Z BIRD_POSITION_Y) bird_images ;;
  let e := set_birds (birds e ++ [bird]) e in
  Ok (set_genomes (genomes e ++ [genome]) e).

Fixpoint add_agents (brain : Z -> Q * Q * Q -> Q) (bird_images : list Surface)
    (batch : list Z) (e : t) : outcome t :=
  match batch with
  | [] => Ok e
  | genome :: rest =>
      e <- add_agent brain bird_images e genome ;;
      add_agents brain bird_images rest e
  end.

(** [run_ne] up to its loop; [drawn] is the height the first pipe draws. *)
Definition setup (brain : Z -> Q * Q * Q -> Q) (batch : list Z) (drawn : Z)
    (e : t) : outcome t :=
  let e := set_score 0 e in
  let bird_images := get_assets e BIRD_IMAGE in
  pipe_image <- getitem (get_assets e PIPE_IMAGE) 0 ;;
  _ <- getitem (get_assets e BASE_IMAGE) 0 ;;
  _ <- getitem (get_assets e BACKGROUND_IMAGE) 0 ;;
  e <- add_agents brain bird_images batch e ;;
  Ok (set_pipes [Pipe.new PIPE_POSITION_X pipe_image drawn] e).

(** One turn of the loop of [run_ne]; the ground belt, the clock and the
    window are left out. *)
Definition frame (drawn : Z) (e : t) : outcome t :=
  e <- emulate_birds e ;;
  e <- move_pipes drawn e ;;
  draw_window e.

(** The loop of [run_ne], for as many frames as [draws] has heights (the
    quit event ends it) or until no bird is left. *)
Fixpoint run_frames (draws : list Z) (e : t) : outcome t :=
  match draws with
  | [] => Ok e
  | drawn :: rest =>
      match birds e with
      | [] => Ok e
      | _ :: _ => e <- frame drawn e ;; run_frames rest e
      end
  end.

(** [run_ne]: one generation.  [drawn] is the height the first pipe draws
    and [draws] the heights of the frames, as in [run_frames]. *)
Definition run_ne (brain : Z -> Q * Q * Q -> Q) (batch : list Z) (drawn : Z)
    (draws : list Z) (e : t) : outcome t :=
  e <- setup brain batch drawn e ;;
  run_frames draws e.

End Engine.

(** ** Base.py *)

Module Base.

Definition BASE_VELOCITY : Z := 5.

Record t := mk {
  position_x : list Z;
  position_y : Z;
  image : Surface
}.

(** [Base(position_y, image)] *)
Definition new (y : Z) (img : Surface) : t :=
  mk [0; get_width img] y img.

(** The body of the loop of [move]: an image that has left the window on
    the left goes behind the other one. *)
Definition wrap (i : nat) (base_position_x : Z) (b : t) : outcome t :=
  if base_position_x + get_width (image b) <? 0
  then other <- getitem (position_x b) ((i + 1) mod 2) ;;
       Ok (mk (<[i := other + get_width (image b)]> (position_x b))
              (position_y b) (image b))
  else Ok b.

Definition move (b : t) : outcome t :=
  Engine.for_enumerate position_x wrap
    (mk (map (fun current_x => current_x - BASE_VELOCITY) (position_x b))
        (position_y b) (image b)).

(** [draw]: the blits on the window, in order. *)
Definition draw (b : t) : list (Surface * (Z * Z)) :=
  map (fun base_position_x => (image b, (base_position_x, position_y b)))
      (position_x b).

End Base.

(** ** main.py *)

Module Main.

(** [game_engine] when [init_neat] is called on it, the six surfaces being
    what pygame loaded from the files and scaled. *)
Definition game_engine (bird1 bird2 bird3 base bg pipe : Surface) : Engine.t :=
  Engine.load_asset Engine.PIPE_IMAGE pipe
    (Engine.load_asset Engine.BACKGROUND_IMAGE bg
       (Engine.load_asset Engine.BASE_IMAGE base
          (Engine.load_asset Engine.BIRD_IMAGE bird3
             (Engine.load_asset Engine.BIRD_IMAGE bird2
                (Engine.load_asset Engine.BIRD_IMAGE bird1 Engine.new))))).

End Main.

(** * What the properties speak of *)

(** The three lists are aligned: the bird and the network at an index are
    those of the genome at that index. *)
Definition aligned (e : Engine.t) : Prop :=
  map Bird.agent (Engine.birds e) = Engine.genomes e
  /\ map Engine.net_agent (Engine.networks e) = Engine.genomes e.

(** The states in which the engine can be observed: the new engine, and the
    state after the loading of an asset, after the setting up of a
    generation, after every turn of the three loops over the birds (hence
    after every single removal), after the reward of a pass, after the
    assignment to [pipes], and after the drawing. *)
Inductive observable : Engine.t -> Prop :=
| obs_new : observable Engine.new
| obs_load_asset ty img e :
    observable e -> observable (Engine.load_asset ty img e)
| obs_setup brain batch drawn e e' :
    observable e -> Engine.setup brain batch drawn e = Ok e' -> observable e'
| obs_emulate_bird current i bird e e' :
    observable e -> Engine.birds e !! i = Some bird ->
    Engine.emulate_bird current i bird e = Ok e' -> observable e'
| obs_collide i bird pipe create e e' pipe' create' :
    observable e -> Engine.birds e !! i = Some bird ->
    Engine.collide i bird (e, pipe, create) = Ok (e', pipe', create') ->
    observable e'
| obs_on_pass drawn marked e marked' e' :
    observable e -> Engine.on_pass drawn marked e = Ok (marked', e') ->
    observable e'
| obs_set_pipes ps e :
    observable e -> observable (Engine.set_pipes ps e)
| obs_check_border i bird e e' :
    observable e -> Engine.birds e !! i = Some bird ->
    Engine.check_border i bird e = Ok e' -> observable e'
| obs_draw_window e e' :
    observable e -> Engine.draw_window e = Ok e' -> observable e'.



(** What holds during the scan of the borders entered in the state [e0]. *)
Definition bordering (e0 e : Engine.t) : Prop :=
  aligned e
  /\ Engine.fitness e = Engine.fitness e0
  /\ Engine.score e = Engine.score e0
  /\ Engine.pipes e = Engine.pipes e0.

(** Whether the network asks for a jump, the bird having moved. *)
Definition jumps (pipe : Pipe.t) (net : Engine.Network) (bird : Bird.t) : bool :=
  Qltb Engine.DECISION_BORDER
       (Engine.activate net (Engine.sensors (Bird.move bird) pipe)).

(** The bird after its turn in [emulate_birds]. *)
Definition emulated (pipe : Pipe.t) (net : Engine.Network) (bird : Bird.t) : Bird.t :=
  if jumps pipe net bird then Bird.jump (Bird.move bird) else Bird.move bird.

(** The calls of its turn. *)
Definition turn (pipe : Pipe.t) (net : Engine.Network) (bird : Bird.t)
  : list Engine.event :=
  Engine.Move (Bird.agent bird)
  :: Engine.Activate (Engine.net_agent net) (Engine.sensors (Bird.move bird) pipe)
  :: (if jumps pipe net bird then [Engine.Jump (Bird.agent bird)] else []).

(** The vectors given to the networks, in the order of the calls. *)
Definition activations (evs : list Engine.event) : list (Q * Q * Q) :=
  flat_map (fun ev => match ev with
                      | Engine.Activate _ inputs => [inputs]
                      | _ => []
                      end) evs.

(** What a loop that pops at its own index leaves of a list: the element
    behind a removed one takes its place and is passed over. *)
Fixpoint survivors {A : Type} (test : A -> bool) (l : list A) : list A :=
  match l with
  | [] => []
  | x :: rest =>
      if test x
      then match rest with
           | [] => []
           | y :: rest' => y :: survivors test rest'
           end
      else x :: survivors test rest
  end.

(** What holds of the engine and of the pipe during the scan of the
    collisions with the pipe [pipe0] entered in the state [e0]: the genomes
    removed so far have lost 1, and nothing else has changed. *)
Definition striking (e0 : Engine.t) (pipe0 : Pipe.t)
    (s : Engine.t * Pipe.t * bool) : Prop :=
  let e := fst (fst s) in
  let pipe := snd (fst s) in
  aligned e
  /\ NoDup (Engine.genomes e)
  /\ (forall g, In g (Engine.genomes e) -> In g (Engine.genomes e0))
  /\ (forall g, In g (Engine.genomes e) -> Engine.fitness e g = Engine.fitness e0 g)
  /\ (forall g, ~ In g (Engine.genomes e0) -> Engine.fitness e g = Engine.fitness e0 g)
  /\ (forall g, In g (Engine.genomes e0) -> ~ In g (Engine.genomes e) ->
        Engine.fitness e g = (Engine.fitness e0 g - Engine.FITNESS_DECREASE)%Q)
  /\ Pipe.position_x pipe = Pipe.position_x pipe0
  /\ Pipe.mini_pipes pipe = Pipe.mini_pipes pipe0
  /\ Pipe.position_y pipe = Pipe.position_y pipe0
  /\ Engine.score e = Engine.score e0
  /\ Engine.pipes e = Engine.pipes e0.

(** The birds there can be: made by the constructor, then moved, made to
    jump and drawn. *)
Inductive flying : Bird.t -> Prop :=
| fly_new key pos imgs b : Bird.new key pos imgs = Ok b -> flying b
| fly_move b : flying b -> flying (Bird.move b)
| fly_jump b : flying b -> flying (Bird.jump b)
| fly_draw b b' : flying b -> Bird.draw b = Ok b' -> flying b'.

(** The sum of the displacements of the first [k] moves of a bird. *)
Fixpoint climb (k : nat) (b : Bird.t) : Q :=
  match k with
  | O => 0
  | S k' => climb k' b + Bird.distance (Nat.iter k' Bird.move b)
  end.

(** The opaque pixels of a surface lie on the surface. *)
Definition bounded (s : Surface) : Prop :=
  Forall (fun p => 0 <= fst p < get_width s /\ 0 <= snd p < get_height s)
         (solid s).

(** A bird of the engine: at the horizontal position 220, with images to
    draw. *)
Definition placed (b : Bird.t) : Prop :=
  fst (Bird.position b) = Engine.BIRD_POSITION_X /\ Bird.images b <> [].

(** The engine between two generations: the lists aligned, the birds
    placed, and the assets [run_ne] asks for loaded, the pipe image of a
    width that is not negative. *)
Definition ready (e : Engine.t) : Prop :=
  aligned e
  /\ Forall placed (Engine.birds e)
  /\ (exists img, Engine.get_assets e Engine.PIPE_IMAGE !! 0%nat = Some img
                  /\ 0 <= get_width img)
  /\ Engine.get_assets e Engine.BASE_IMAGE <> []
  /\ Engine.get_assets e Engine.BACKGROUND_IMAGE <> []
  /\ Engine.get_assets e Engine.BIRD_IMAGE <> [].

(** The engine between two frames: moreover, unless no bird is left, the
    last pipe has not been passed yet. *)
Definition running (e : Engine.t) : Prop :=
  ready e
  /\ (Engine.birds e = []
      \/ exists ps p, Engine.pipes e = ps ++ [p]
                      /\ Pipe.is_passed p = false
                      /\ 0 <= get_width (fst (Pipe.mini_pipes p))).

(** Where a pipe is and what it looks like: all of it but [is_passed]. *)
Definition outline (p : Pipe.t) : Z * (Surface * Surface) * (Z * Z) * Z :=
  (Pipe.position_x p, Pipe.mini_pipes p, Pipe.position_y p, Pipe.height p).

(** What stays of the engine and of the pipe during the scan of the
    collisions with the pipe [pipe0] entered in the state [e0], whatever the
    genomes. *)
Definition keeping (e0 : Engine.t) (pipe0 : Pipe.t)
    (s : Engine.t * Pipe.t * bool) : Prop :=
  let e := fst (fst s) in
  let pipe := snd (fst s) in
  aligned e
  /\ Forall placed (Engine.birds e)
  /\ Engine.assets e = Engine.assets e0
  /\ Engine.score e = Engine.score e0
  /\ outline pipe = outline pipe0.

(** The pipe has been asked about a bird: it is passed and a new pipe is
    due, or it is still in front of the birds. *)
Definition settled (s : Engine.t * Pipe.t * bool) : Prop :=
  let pipe := snd (fst s) in
  (Pipe.is_passed pipe = true /\ snd s = true)
  \/ (Pipe.is_passed pipe = false
      /\ Engine.BIRD_POSITION_X <= Pipe.position_x pipe).

(** The number of frames from the making of a pipe to its passing: the
    pipe is asked once before its first move, and is behind the birds after
    87 moves. *)
Definition pass_period : Z :=
  (Engine.PIPE_POSITION_X - Engine.BIRD_POSITION_X) / Pipe.PIPE_VELOCITY + 2.

(** The pipes [r] frames after the making of the last one: all are passed
    but the last one, which has moved [r] times. *)
Definition paced (r : Z) (e : Engine.t) : Prop :=
  exists ps p,
    Engine.pipes e = ps ++ [p]
    /\ Forall (fun q => Pipe.is_passed q = true) ps
    /\ Pipe.is_passed p = false
    /\ Pipe.position_x p = Engine.PIPE_POSITION_X - Pipe.PIPE_VELOCITY * r
    /\ 0 <= get_width (fst (Pipe.mini_pipes p)).

(** * Scenes

    Concrete sprites, birds, networks and runs, on which the theorems below
    are tried. *)

Module Scene.

(** A sprite of one opaque pixel. *)
Definition dot : Surface := mkSurface 1 1 [(0, 0)].

(** A pipe image 100 wide and a bird image 330 high, both transparent. *)
Definition wide : Surface := mkSurface 100 640 [].
Definition tall : Surface := mkSurface 34 330 [].

(** A transparent pipe image 2 wide, and an opaque one, 2 by 300. *)
Definition slit : Surface := mkSurface 2 640 [].
Definition rect (w h : nat) : Surface :=
  mkSurface (Z.of_nat w) (Z.of_nat h)
    (flat_map (fun y => map (fun x => (Z.of_nat x, Z.of_nat y)) (seq 0 w)) (seq 0 h)).
Definition trunk : Surface := rect 2 300.

(** The bird that [Bird([220, 350], images)] makes. *)
Definition hatch (key : Z) (img : Surface) : Bird.t :=
  Bird.mk key (Engine.BIRD_POSITION_X, inject_Z Engine.BIRD_POSITION_Y)
          0 0 (inject_Z Engine.BIRD_POSITION_Y) 0 0 [img] img.

Definition fresh : Bird.t := hatch 1 dot.
Definition jumped : Bird.t := Bird.jump fresh.
Definition edge_bird : Bird.t := hatch 1 tall.

(** The bird that [Bird([220, 350], images)] makes of three images. *)
Definition painted : Bird.t :=
  Bird.mk 1 (Engine.BIRD_POSITION_X, inject_Z Engine.BIRD_POSITION_Y)
          0 0 (inject_Z Engine.BIRD_POSITION_Y) 0 0 [dot; tall; wide] dot.

(** The engine of [main.py], its assets loaded: the bird is a dot. *)
Definition stage (pipe_image : Surface) : Engine.t :=
  Engine.load_asset Engine.PIPE_IMAGE pipe_image
    (Engine.load_asset Engine.BACKGROUND_IMAGE dot
       (Engine.load_asset Engine.BASE_IMAGE dot
          (Engine.load_asset Engine.BIRD_IMAGE dot Engine.new))).

(** A network that never asks for a jump, and one that asks for it below
    350. *)
Definition never : Z -> Q * Q * Q -> Q := fun _ _ => 0%Q.
Definition hover : Z -> Q * Q * Q -> Q :=
  fun _ inputs => if Qle_bool (fst (fst inputs)) 350 then 0%Q else 1%Q.

Definition state_of (o : outcome Engine.t) : Engine.t :=
  match o with
  | Ok e => e
  | Raise _ => Engine.new
  end.

(** [run_ne] for a number of frames, every pipe drawing the same height. *)
Definition run (brain : Z -> Q * Q * Q -> Q) (batch : list Z) (drawn : Z)
    (pipe_image : Surface) (frames : nat) : outcome Engine.t :=
  e <- Engine.setup brain batch drawn (stage pipe_image) ;;
  Engine.run_frames (List.repeat drawn frames) e.

(** The next frame up to [move_pipes]. *)
Definition then_emulate (o : outcome Engine.t) : outcome Engine.t :=
  e <- o ;; Engine.emulate_birds e.

(** The calls made from one state to a later one. *)
Definition news (before after : Engine.t) : list Engine.event :=
  drop (length (Engine.calls before)) (Engine.calls after).

End Scene.

(** Two birds that fall, three birds that hover in front of an opaque pipe
    that reaches down to 449, and one bird that hovers at a transparent
    pipe. *)
Abbreviation fallers := (Scene.run Scene.never [1; 2] 50 Scene.slit).
Abbreviation flock := (Scene.run Scene.hover [1; 2; 3] 449 Scene.trunk).
Abbreviation loner := (Scene.run Scene.hover [1] 50 Scene.slit).

Ltac computed := vm_compute; reflexivity.

Ltac conjuncts := repeat match goal with |- _ /\ _ => split end.

Ltac distinct_keys :=
  vm_compute;
  repeat (constructor; [rewrite list_elem_of_In; simpl; intuition discriminate|]);
  constructor.

(** * Properties *)

(** ** Comparisons on [Q] *)

Lemma Qltb_lt (a b : Q) : Qltb a b = true <-> (a < b)%Q.
Proof.
  unfold Qltb. rewrite negb_true_iff.
  split; intros H.
  - apply Qnot_le_lt. intros Hle. apply Qle_bool_iff in Hle. congruence.
  - destruct (Qle_bool b a) eqn:E; [|reflexivity].
    apply Qle_bool_iff in E. exfalso. exact (Qlt_not_le _ _ H E).
Qed.

Lemma Qltb_ge (a b : Q) : Qltb a b = false <-> (b <= a)%Q.
Proof.
  unfold Qltb. rewrite negb_false_iff. apply Qle_bool_iff.
Qed.

Lemma Qle_bool_false (a b : Q) : Qle_bool a b = false <-> (b < a)%Q.
Proof.
  split; intros H.
  - apply Qnot_le_lt. intros Hle. apply Qle_bool_iff in Hle. congruence.
  - destruct (Qle_bool a b) eqn:E; [|reflexivity].
    apply Qle_bool_iff in E. exfalso. exact (Qlt_not_le _ _ H E).
Qed.

(** ** The bird *)

Lemma iter_move_velocity (k : nat) (b : Bird.t) :
  Bird.velocity (Nat.iter k Bird.move b) = Bird.velocity b.
Proof. induction k as [|k IH]; simpl; [reflexivity | exact IH]. Qed.

Lemma iter_move_tick (k : nat) (b : Bird.t) :
  Bird.tick_frame (Nat.iter k Bird.move b) = Bird.tick_frame b + Z.of_nat k.
Proof.
  induction k as [|k IH].
  - simpl. lia.
  - rewrite Nat2Z.inj_succ. simpl. rewrite IH. lia.
Qed.

Lemma formula_poly (v t : Z) :
  (Bird.formula v t
   == inject_Z v * inject_Z t + (3 # 2) * (inject_Z t * inject_Z t))%Q.
Proof.
  unfold Bird.formula. rewrite Z.pow_2_r, !inject_Z_mult. reflexivity.
Qed.


Lemma distance_cases (b : Bird.t) :
  let f := Bird.formula (Bird.velocity b) (Bird.tick_frame b + 1) in
  ((16 <= f)%Q /\ Bird.distance b = 16%Q) \/ ((f < 16)%Q /\ Bird.distance b = f).
Proof.
  unfold Bird.distance. simpl.
  destruct (Qle_bool _ _) eqn:E.
  - left. split; [apply Qle_bool_iff in E; exact E | reflexivity].
  - right. split; [|reflexivity]. apply Qle_bool_false. exact E.
Qed.





(** C10.  [jump] twice is [jump] once. *)
Theorem jump_idempotent (b : Bird.t) :
  Bird.jump (Bird.jump b) = Bird.jump b.
Proof. reflexivity. Qed.

(** C9, as the code has it.  [hits_border] answers true exactly when the
    vertical position plus the height of the sprite is at least the lower
    bound 680, or the vertical position is negative.  It is a function of
    the bird to its answer: it assigns nothing. *)
Theorem hits_border_iff (b : Bird.t) :
  Bird.hits_border b = true
  <-> (inject_Z Bird.BIRD_OFFSET
         <= snd (Bird.position b) + inject_Z (get_height (Bird.image b)))%Q
      \/ (snd (Bird.position b) < 0)%Q.
Proof.
  unfold Bird.hits_border. rewrite orb_true_iff, Qle_bool_iff, Qltb_lt.
  reflexivity.
Qed.

(** C9, as it is stated, fails on the bound itself: a bird at 350 with a
    sprite 330 high is out of bounds for the code, and 680 does not exceed
    680. *)
Lemma hits_border_on_the_bound :
  ~ (Bird.hits_border Scene.edge_bird = true
     <-> (inject_Z Bird.BIRD_OFFSET
            < snd (Bird.position Scene.edge_bird)
              + inject_Z (get_height (Bird.image Scene.edge_bird)))%Q
         \/ (snd (Bird.position Scene.edge_bird) < 0)%Q).
Proof.
  intros [H _]. destruct (H eq_refl) as [Hlt | Hlt]; vm_compute in Hlt; discriminate.
Qed.

(** ** The pipe *)

Lemma iter_move_position_x (n : nat) (p : Pipe.t) :
  Pipe.position_x (Nat.iter n Pipe.move p)
  = Pipe.position_x p - Pipe.PIPE_VELOCITY * Z.of_nat n.
Proof.
  induction n as [|n IH].
  - simpl. lia.
  - rewrite Nat2Z.inj_succ. simpl. rewrite IH. lia.
Qed.

Lemma iter_move_mini_pipes (n : nat) (p : Pipe.t) :
  Pipe.mini_pipes (Nat.iter n Pipe.move p) = Pipe.mini_pipes p.
Proof. induction n as [|n IH]; simpl; [reflexivity | exact IH]. Qed.

(** C8, as the code has it.  [is_window_passed] is true exactly when the
    horizontal position plus the width of the segment is negative; for a
    pipe made at 650 and moved [n] times, that is exactly when [n] is at
    least [(650 + width) / 5 + 1], the quotient rounded down. *)
Theorem is_window_passed_after (img : Surface) (drawn : Z) (n : nat) :
  let pipe := Nat.iter n Pipe.move (Pipe.new Engine.PIPE_POSITION_X img drawn) in
  (Pipe.is_window_passed pipe = true
   <-> Pipe.position_x pipe + get_width (fst (Pipe.mini_pipes pipe)) < 0)
  /\ (Pipe.is_window_passed pipe = true
      <-> (Engine.PIPE_POSITION_X + get_width img) / Pipe.PIPE_VELOCITY + 1
          <= Z.of_nat n).
Proof.
  intros pipe.
  assert (H1 : Pipe.is_window_passed pipe = true
               <-> Pipe.position_x pipe + get_width (fst (Pipe.mini_pipes pipe)) < 0).
  { unfold Pipe.is_window_passed. apply Z.ltb_lt. }
  split; [exact H1|]. rewrite H1. unfold pipe.
  rewrite iter_move_position_x, iter_move_mini_pipes. simpl.
  unfold Engine.PIPE_POSITION_X, Pipe.PIPE_VELOCITY.
  pose proof (Z.div_mod (650 + get_width img) 5 ltac:(lia)) as Hd.
  pose proof (Z.mod_pos_bound (650 + get_width img) 5 ltac:(lia)) as Hm.
  lia.
Qed.

(** C8, as it is stated, fails: a pipe 100 wide is not yet off the screen
    after (650 + 100) / 5 = 150 calls of [move]. *)
Lemma is_window_passed_not_at_quotient :
  (Engine.PIPE_POSITION_X + get_width Scene.wide) / Pipe.PIPE_VELOCITY = 150
  /\ Pipe.is_window_passed
       (Nat.iter 150 Pipe.move (Pipe.new Engine.PIPE_POSITION_X Scene.wide 50))
     = false.
Proof. split; vm_compute; reflexivity. Qed.

(** * The engine *)

(** ** Lists *)

Lemma map_delete {A B : Type} (f : A -> B) (i : nat) (l : list A) :
  map f (delete i l) = delete i (map f l).
Proof.
  revert i. induction l as [|x l IH]; intros [|i]; simpl; try reflexivity.
  f_equal. apply IH.
Qed.

Lemma map_lookup {A B : Type} (f : A -> B) (l : list A) (i : nat) :
  map f l !! i = option_map f (l !! i).
Proof.
  revert i. induction l as [|x l IH]; intros [|i]; simpl; try reflexivity.
  apply IH.
Qed.

Lemma map_insert {A B : Type} (f : A -> B) (l : list A) (i : nat) (x : A) :
  map f (<[i := x]> l) = <[i := f x]> (map f l).
Proof.
  revert i. induction l as [|y l IH]; intros [|i]; simpl; try reflexivity.
  f_equal. apply IH.
Qed.

Lemma getitem_Ok {A : Type} (l : list A) (i : nat) (x : A) :
  getitem l i = Ok x <-> l !! i = Some x.
Proof.
  unfold getitem. destruct (l !! i); split; intros H; congruence.
Qed.

Lemma pop_Ok {A : Type} (l l' : list A) (i : nat) :
  pop l i = Ok l' <-> (i < length l)%nat /\ l' = delete i l.
Proof.
  unfold pop. destruct (l !! i) eqn:E.
  - apply lookup_lt_Some in E. split; [intros [= <-]; auto | intros [_ ->]; auto].
  - apply lookup_ge_None in E. split; [discriminate | intros [H _]; lia].
Qed.

Lemma bind_Ok {A B : Type} (m : outcome A) (f : A -> outcome B) (b : B) :
  bind m f = Ok b <-> exists a, m = Ok a /\ f a = Ok b.
Proof.
  destruct m as [a|e]; simpl.
  - split; [eauto | intros (a' & [= <-] & H); exact H].
  - split; [discriminate | intros (a' & H & _); discriminate].
Qed.

(** ** Loops *)

Section Loops.
Context {S A : Type} (get : S -> list A) (body : nat -> A -> S -> outcome S).

Lemma loop_upto_invariant (P : S -> Prop) :
  (forall i x s s', P s -> get s !! i = Some x -> body i x s = Ok s' -> P s') ->
  forall n i s s', P s -> Engine.loop_upto get body n i s = Ok s' -> P s'.
Proof.
  intros Hbody. induction n as [|n IH]; intros i s s' HP H; simpl in H.
  - congruence.
  - destruct (get s !! i) as [x|] eqn:E; [|congruence].
    apply bind_Ok in H as (s1 & H1 & H2). eauto.
Qed.

Lemma loop_upto_total (P : S -> Prop) :
  (forall i x s, P s -> get s !! i = Some x ->
                 exists s', body i x s = Ok s' /\ P s') ->
  forall n i s, P s -> exists s', Engine.loop_upto get body n i s = Ok s' /\ P s'.
Proof.
  intros Hbody. induction n as [|n IH]; intros i s HP; simpl.
  - eauto.
  - destruct (get s !! i) as [x|] eqn:E; [|eauto].
    destruct (Hbody i x s HP E) as (s1 & -> & HP1). simpl. apply IH, HP1.
Qed.

(** A loop whose body never makes the list longer is over after as many
    iterations as the list has elements from the index on. *)
Lemma loop_upto_more :
  (forall i x s s', body i x s = Ok s' -> (length (get s') <= length (get s))%nat) ->
  forall n k i s, (length (get s) - i <= n)%nat ->
    Engine.loop_upto get body (n + k) i s = Engine.loop_upto get body n i s.
Proof.
  intros Hbody. induction n as [|n IH]; intros k i s Hn; simpl.
  - destruct k as [|k]; simpl; [reflexivity|].
    rewrite (proj2 (lookup_ge_None (get s) i)); [reflexivity | lia].
  - destruct (get s !! i) as [x|] eqn:E; [|reflexivity].
    destruct (body i x s) as [s1|err] eqn:E1; simpl; [|reflexivity].
    apply IH. apply Hbody in E1. apply lookup_lt_Some in E. lia.
Qed.
End Loops.

(** ** Removal *)

Lemma remove_agent_Ok (i : nat) (e e' : Engine.t) :
  Engine.remove_agent i e = Ok e' ->
  Engine.birds e' = delete i (Engine.birds e)
  /\ Engine.networks e' = delete i (Engine.networks e)
  /\ Engine.genomes e' = delete i (Engine.genomes e)
  /\ Engine.fitness e' = Engine.fitness e
  /\ Engine.pipes e' = Engine.pipes e
  /\ Engine.score e' = Engine.score e
  /\ Engine.calls e' = Engine.calls e
  /\ Engine.assets e' = Engine.assets e.
Proof.
  unfold Engine.remove_agent. intros H.
  apply bind_Ok in H as (bs & Hb & H). apply bind_Ok in H as (ns & Hn & H).
  apply bind_Ok in H as (gs & Hg & H). injection H as <-.
  apply pop_Ok in Hb as [_ ->]. apply pop_Ok in Hn as [_ ->].
  apply pop_Ok in Hg as [_ ->]. simpl. repeat split.
Qed.

Lemma aligned_lengths (e : Engine.t) :
  aligned e ->
  length (Engine.networks e) = length (Engine.birds e)
  /\ length (Engine.genomes e) = length (Engine.birds e).
Proof.
  intros [Hb Hn]. split.
  - rewrite <- (length_map Engine.net_agent), Hn, <- Hb. apply length_map.
  - rewrite <- Hb. apply length_map.
Qed.

Lemma remove_agent_total (i : nat) (e : Engine.t) :
  aligned e -> (i < length (Engine.birds e))%nat ->
  exists e', Engine.remove_agent i e = Ok e'.
Proof.
  intros Ha Hi. destruct (aligned_lengths e Ha) as [Ln Lg].
  unfold Engine.remove_agent, pop.
  destruct (lookup_lt_is_Some_2 (Engine.birds e) i Hi) as [b ->].
  destruct (lookup_lt_is_Some_2 (Engine.networks e) i ltac:(lia)) as [n ->].
  destruct (lookup_lt_is_Some_2 (Engine.genomes e) i ltac:(lia)) as [g ->].
  simpl. eauto.
Qed.

Lemma remove_agent_aligned (i : nat) (e e' : Engine.t) :
  aligned e -> Engine.remove_agent i e = Ok e' -> aligned e'.
Proof.
  intros [Hb Hn] H. apply remove_agent_Ok in H as (Eb & En & Eg & _).
  unfold aligned. rewrite Eb, En, Eg, !map_delete, Hb, Hn. auto.
Qed.

(** ** Alignment is kept by every operation *)

Lemma add_agent_aligned brain imgs e g e' :
  aligned e -> Engine.add_agent brain imgs e g = Ok e' -> aligned e'.
Proof.
  intros [Hb Hn] H. unfold Engine.add_agent in H.
  apply bind_Ok in H as (bird & Hbird & H). injection H as <-.
  unfold Bird.new in Hbird. apply bind_Ok in Hbird as (img & _ & Hbird).
  injection Hbird as <-.
  unfold aligned. simpl. rewrite !map_app, Hb, Hn. auto.
Qed.

Lemma add_agents_aligned brain imgs batch e e' :
  aligned e -> Engine.add_agents brain imgs batch e = Ok e' -> aligned e'.
Proof.
  revert e. induction batch as [|g batch IH]; intros e Ha H; simpl in H.
  - congruence.
  - apply bind_Ok in H as (e1 & H1 & H2).
    eapply IH; [eapply add_agent_aligned|]; eauto.
Qed.

Lemma setup_aligned brain batch drawn e e' :
  aligned e -> Engine.setup brain batch drawn e = Ok e' -> aligned e'.
Proof.
  intros Ha H. unfold Engine.setup in H.
  apply bind_Ok in H as (img & _ & H). apply bind_Ok in H as (? & _ & H).
  apply bind_Ok in H as (? & _ & H). apply bind_Ok in H as (e1 & H1 & H).
  injection H as <-. apply add_agents_aligned in H1; [exact H1 | exact Ha].
Qed.

Lemma emulate_bird_aligned current i bird e e' :
  aligned e -> Engine.birds e !! i = Some bird ->
  Engine.emulate_bird current i bird e = Ok e' -> aligned e'.
Proof.
  intros [Hb Hn] Hi H. unfold Engine.emulate_bird in H.
  apply bind_Ok in H as (g & _ & H). apply bind_Ok in H as (net & _ & H).
  apply bind_Ok in H as (pipe & _ & H).
  assert (Hmoved : map Bird.agent (<[i := Bird.move bird]> (Engine.birds e))
                   = Engine.genomes e).
  { rewrite map_insert. simpl. rewrite <- Hb. apply list_insert_id.
    rewrite map_lookup, Hi. reflexivity. }
  destruct (Qltb _ _); injection H as <-; unfold aligned; simpl.
  - split; [|exact Hn]. rewrite list_insert_insert_eq, map_insert. simpl.
    rewrite <- Hb. apply list_insert_id. rewrite map_lookup, Hi. reflexivity.
  - auto.
Qed.

Lemma on_collision_aligned i e e' :
  aligned e -> Engine.on_collision i e = Ok e' -> aligned e'.
Proof.
  intros Ha H. unfold Engine.on_collision in H.
  apply bind_Ok in H as (g & _ & H).
  eapply remove_agent_aligned; [|exact H]. exact Ha.
Qed.

Lemma collide_aligned i bird pipe create e e' pipe' create' :
  aligned e ->
  Engine.collide i bird (e, pipe, create) = Ok (e', pipe', create') ->
  aligned e'.
Proof.
  intros Ha H. unfold Engine.collide in H.
  apply bind_Ok in H as (e1 & H1 & H).
  assert (Ha1 : aligned e1).
  { destruct (Pipe.is_collision pipe bird).
    - eapply on_collision_aligned; [|exact H1]. exact Ha.
    - injection H1 as <-. exact Ha. }
  destruct (negb (Pipe.is_passed pipe)).
  - destruct (Pipe.is_bird_passed pipe bird) as [p r]. injection H as <- _ _. exact Ha1.
  - injection H as <- _ _. exact Ha1.
Qed.

Lemma check_border_aligned i bird e e' :
  aligned e -> Engine.check_border i bird e = Ok e' -> aligned e'.
Proof.
  intros Ha H. unfold Engine.check_border in H.
  destruct (Bird.hits_border bird).
  - eapply remove_agent_aligned; [|exact H]. exact Ha.
  - injection H as <-. exact Ha.
Qed.

Lemma draw_birds_agents bs bs' :
  Engine.draw_birds bs = Ok bs' -> map Bird.agent bs' = map Bird.agent bs.
Proof.
  revert bs'. induction bs as [|b bs IH]; intros bs' H; simpl in H.
  - injection H as <-. reflexivity.
  - apply bind_Ok in H as (b1 & Hb & H). apply bind_Ok in H as (r & Hr & H).
    injection H as <-. simpl. rewrite (IH r Hr). f_equal.
    unfold Bird.draw in Hb. destruct (Bird.images b); [discriminate|].
    apply bind_Ok in Hb as (img & _ & Hb). injection Hb as <-. reflexivity.
Qed.

Lemma draw_window_aligned e e' :
  aligned e -> Engine.draw_window e = Ok e' -> aligned e'.
Proof.
  intros [Hb Hn] H. unfold Engine.draw_window in H.
  apply bind_Ok in H as (bs & Hd & H). injection H as <-.
  unfold aligned. simpl. rewrite (draw_birds_agents _ _ Hd). auto.
Qed.

(** C1.  In every observable state the three lists have the same length,
    and at every index the bird and the network are those of the genome at
    that index. *)
Theorem parallel_lists_aligned (e : Engine.t) :
  observable e ->
  length (Engine.birds e) = length (Engine.genomes e)
  /\ length (Engine.networks e) = length (Engine.genomes e)
  /\ forall i g, Engine.genomes e !! i = Some g ->
       exists bird net,
         Engine.birds e !! i = Some bird /\ Bird.agent bird = g
         /\ Engine.networks e !! i = Some net /\ Engine.net_agent net = g.
Proof.
  intros Hobs.
  assert (Ha : aligned e).
  { induction Hobs.
    - split; reflexivity.
    - exact IHHobs.
    - eapply setup_aligned; eauto.
    - eapply emulate_bird_aligned; eauto.
    - eapply collide_aligned; eauto.
    - unfold Engine.on_pass in H. apply bind_Ok in H as (img & _ & H).
      injection H as _ <-. exact IHHobs.
    - exact IHHobs.
    - eapply check_border_aligned; eauto.
    - eapply draw_window_aligned; eauto. }
  destruct (aligned_lengths e Ha) as [Ln Lg]. destruct Ha as [Hb Hn].
  split; [lia|]. split; [lia|]. intros i g Hg.
  pose proof Hg as Hg'. rewrite <- Hb, map_lookup in Hg.
  rewrite <- Hn, map_lookup in Hg'.
  destruct (Engine.birds e !! i) as [bird|]; [|discriminate].
  destruct (Engine.networks e !! i) as [net|]; [|discriminate].
  simpl in *. exists bird, net. repeat split; congruence.
Qed.

Lemma NoDup_delete_lookup {A : Type} (l : list A) (i : nat) (x : A) :
  NoDup l -> l !! i = Some x -> NoDup (delete i l) /\ ~ In x (delete i l).
Proof.
  intros Hnd Hi. pose proof (delete_Permutation l i x Hi) as Hp.
  rewrite Hp in Hnd. apply NoDup_cons in Hnd as [Hni Hnd'].
  split; [exact Hnd'|]. rewrite <- list_elem_of_In. exact Hni.
Qed.

Lemma In_delete {A : Type} (l : list A) (i : nat) (x : A) :
  In x (delete i l) -> In x l.
Proof. rewrite <- !list_elem_of_In. apply list_elem_of_delete_inv. Qed.

Lemma assign_same g v f : Engine.assign g v f g = v.
Proof. unfold Engine.assign. rewrite Z.eqb_refl. reflexivity. Qed.

Lemma assign_other g v f k : k <> g -> Engine.assign g v f k = f k.
Proof.
  intros H. unfold Engine.assign. destruct (k =? g) eqn:E; [|reflexivity].
  apply Z.eqb_eq in E. contradiction.
Qed.


(** What a collision does, step by step. *)
Lemma on_collision_spec (i : nat) (e : Engine.t) :
  aligned e -> (i < length (Engine.birds e))%nat ->
  exists g e',
    Engine.genomes e !! i = Some g
    /\ Engine.on_collision i e = Ok e'
    /\ Engine.fitness e'
       = Engine.assign g (Engine.fitness e g - Engine.FITNESS_DECREASE)%Q (Engine.fitness e)
    /\ Engine.birds e' = delete i (Engine.birds e)
    /\ Engine.networks e' = delete i (Engine.networks e)
    /\ Engine.genomes e' = delete i (Engine.genomes e)
    /\ Engine.pipes e' = Engine.pipes e
    /\ Engine.score e' = Engine.score e
    /\ Engine.calls e' = Engine.calls e
    /\ Engine.assets e' = Engine.assets e.
Proof.
  intros Ha Hi. destruct (aligned_lengths e Ha) as [Ln Lg].
  destruct (lookup_lt_is_Some_2 (Engine.genomes e) i ltac:(lia)) as [g Hg].
  exists g. unfold Engine.on_collision, getitem. rewrite Hg. simpl.
  set (e1 := Engine.set_fitness _ e).
  destruct (remove_agent_total i e1) as [e' He']; [exact Ha | exact Hi |].
  exists e'. split; [reflexivity|]. split; [exact He'|].
  apply remove_agent_Ok in He' as (-> & -> & -> & -> & -> & -> & -> & ->).
  repeat split.
Qed.





(** ** The pass bonus *)


(** ** The scan of the borders *)

Lemma check_border_bordering (e0 : Engine.t) (i : nat) (bird : Bird.t) (e : Engine.t) :
  bordering e0 e -> Engine.birds e !! i = Some bird ->
  exists e', Engine.check_border i bird e = Ok e' /\ bordering e0 e'.
Proof.
  intros (Ha & Hf & Hs & Hp) Hi. unfold Engine.check_border.
  set (e1 := Engine.log _ e).
  destruct (Bird.hits_border bird).
  - destruct (remove_agent_total i e1) as [e' He'];
      [exact Ha | apply lookup_lt_Some in Hi; exact Hi |].
    exists e'. split; [exact He'|].
    split; [eapply remove_agent_aligned; [|exact He']; exact Ha|].
    apply remove_agent_Ok in He' as (_ & _ & _ & -> & -> & -> & _).
    auto.
  - exists e1. split; [reflexivity|]. split; [exact Ha | auto].
Qed.




(** C5.  When the pipe collides with the bird at index [i], lists aligned
    and genomes distinct: the body of the scan returns, the fitness of the
    genome of that bird goes down by exactly 1, no other fitness changes
    (and no other index holds that genome), the entry at [i] and no other
    is removed from each of the three lists, and the lists stay aligned. *)
Theorem collision_penalty (i : nat) (bird : Bird.t) (pipe : Pipe.t)
    (create : bool) (e : Engine.t) :
  aligned e -> NoDup (Engine.genomes e) ->
  Engine.birds e !! i = Some bird ->
  Pipe.is_collision pipe bird = true ->
  exists e' pipe' create',
    Engine.collide i bird (e, pipe, create) = Ok (e', pipe', create')
    /\ Engine.genomes e !! i = Some (Bird.agent bird)
    /\ Engine.fitness e' (Bird.agent bird)
       = (Engine.fitness e (Bird.agent bird) - Engine.FITNESS_DECREASE)%Q
    /\ (forall g, g <> Bird.agent bird -> Engine.fitness e' g = Engine.fitness e g)
    /\ (forall j g, j <> i -> Engine.genomes e !! j = Some g -> g <> Bird.agent bird)
    /\ Engine.birds e' = delete i (Engine.birds e)
    /\ Engine.networks e' = delete i (Engine.networks e)
    /\ Engine.genomes e' = delete i (Engine.genomes e)
    /\ aligned e'.
Proof.
  intros Ha Hnd Hi Hcol.
  assert (Hg : Engine.genomes e !! i = Some (Bird.agent bird)).
  { destruct Ha as [Hb _]. rewrite <- Hb, map_lookup, Hi. reflexivity. }
  unfold Engine.collide. rewrite Hcol.
  set (e1 := Engine.log _ e).
  destruct (on_collision_spec i e1 Ha) as
      (g & e2 & Hg2 & -> & Ef & Eb & En & Eg & Ep & Es & Ec & Ea).
  { apply lookup_lt_Some in Hi. exact Hi. }
  simpl in Hg2. rewrite Hg in Hg2. injection Hg2 as <-.
  cbn [bind].
  assert (Hrest :
    Engine.fitness e2 (Bird.agent bird)
       = (Engine.fitness e (Bird.agent bird) - Engine.FITNESS_DECREASE)%Q
    /\ (forall g, g <> Bird.agent bird -> Engine.fitness e2 g = Engine.fitness e g)
    /\ (forall j g, j <> i -> Engine.genomes e !! j = Some g -> g <> Bird.agent bird)
    /\ Engine.birds e2 = delete i (Engine.birds e)
    /\ Engine.networks e2 = delete i (Engine.networks e)
    /\ Engine.genomes e2 = delete i (Engine.genomes e)
    /\ aligned e2).
  { split; [rewrite Ef; apply assign_same|].
    split; [intros g Hne; rewrite Ef; apply assign_other; exact Hne|].
    split.
    { intros j g Hj Hgj ->. apply Hj.
      eapply NoDup_lookup; [exact Hnd | exact Hgj | exact Hg]. }
    split; [exact Eb|]. split; [exact En|]. split; [exact Eg|].
    destruct Ha as [Hb Hn]. unfold aligned.
    rewrite Eb, En, Eg. simpl. rewrite !map_delete, Hb, Hn. auto. }
  destruct (negb (Pipe.is_passed pipe)).
  - destruct (Pipe.is_bird_passed pipe bird) as [pipe' passed].
    eexists _, _, _. split; [reflexivity|]. split; [exact Hg|]. exact Hrest.
  - eexists _, _, _. split; [reflexivity|]. split; [exact Hg|]. exact Hrest.
Qed.

Lemma emulate_loop (current : nat) (pipe : Pipe.t) (rest : list Bird.t) :
  forall (nets : list Engine.Network) (done : list Bird.t) (n : nat) (e : Engine.t),
    Engine.birds e = done ++ rest ->
    drop (length done) (Engine.networks e) = nets ->
    length nets = length rest ->
    length (Engine.genomes e) = length (Engine.birds e) ->
    Engine.pipes e !! current = Some pipe ->
    (length rest <= n)%nat ->
    exists e',
      Engine.loop_upto Engine.birds (Engine.emulate_bird current) n (length done) e
      = Ok e'
      /\ Engine.birds e' = done ++ zip_with (emulated pipe) nets rest
      /\ Engine.calls e' = Engine.calls e ++ concat (zip_with (turn pipe) nets rest)
      /\ Engine.networks e' = Engine.networks e
      /\ Engine.genomes e' = Engine.genomes e
      /\ Engine.pipes e' = Engine.pipes e
      /\ Engine.score e' = Engine.score e
      /\ Engine.assets e' = Engine.assets e.
Proof.
  induction rest as [|bird rest IH]; intros nets done n e Hb Hn Hlen Hg Hp Hfuel.
  - exists e. rewrite app_nil_r in Hb.
    assert (Hnone : Engine.birds e !! length done = None).
    { apply lookup_ge_None. rewrite Hb. lia. }
    split.
    { destruct n; simpl; [reflexivity | rewrite Hnone; reflexivity]. }
    destruct nets; [|discriminate]. simpl. rewrite !app_nil_r. auto 10.
  - destruct nets as [|net nets]; [discriminate|].
    destruct n as [|n]; [simpl in Hfuel; lia|].
    assert (Hi : Engine.birds e !! length done = Some bird).
    { rewrite Hb. apply list_lookup_middle. reflexivity. }
    assert (Hnet : Engine.networks e !! length done = Some net).
    { rewrite <- (Nat.add_0_r (length done)), <- lookup_drop, Hn. reflexivity. }
    destruct (lookup_lt_is_Some_2 (Engine.genomes e) (length done)) as [g Hgi].
    { rewrite Hg. apply lookup_lt_Some in Hi. exact Hi. }
    simpl. rewrite Hi. unfold Engine.emulate_bird at 1. unfold getitem. simpl.
    rewrite Hgi, Hnet, Hp. cbn [bind].
    fold (jumps pipe net bird).
    assert (Hins : forall x, <[length done := x]> (Engine.birds e)
                             = (done ++ [x]) ++ rest).
    { intros x. rewrite Hb, <- app_assoc. simpl.
      rewrite <- (Nat.add_0_r (length done)) at 1. rewrite insert_app_r. reflexivity. }
    assert (Hnets : drop (length (done ++ [emulated pipe net bird])) (Engine.networks e)
                    = nets).
    { rewrite length_app. simpl. rewrite Nat.add_1_r.
      rewrite (drop_S _ _ _ Hnet) in Hn. injection Hn as Hn. exact Hn. }
    assert (Hlen' : S (length done) = length (done ++ [emulated pipe net bird])).
    { rewrite length_app. simpl. lia. }
    unfold emulated in *. unfold turn.
    destruct (jumps pipe net bird); cbn [bind]; rewrite Hlen'.
    + edestruct (IH nets (done ++ [Bird.jump (Bird.move bird)]) n) as
        (e' & -> & Eb & Ec & En & Eg & Ep & Es & Ea);
        [ | exact Hnets | simpl in Hlen; lia | | | simpl in Hfuel; lia | ].
      * simpl. rewrite list_insert_insert_eq. apply Hins.
      * simpl. rewrite list_insert_insert_eq, length_insert. exact Hg.
      * simpl. exact Hp.
      * exists e'. split; [reflexivity|]. simpl in *.
        rewrite Eb, Ec, <- !app_assoc. simpl. auto 10.
    + edestruct (IH nets (done ++ [Bird.move bird]) n) as
        (e' & -> & Eb & Ec & En & Eg & Ep & Es & Ea);
        [ | exact Hnets | simpl in Hlen; lia | | | simpl in Hfuel; lia | ].
      * simpl. apply Hins.
      * simpl. rewrite length_insert. exact Hg.
      * simpl. exact Hp.
      * exists e'. split; [reflexivity|]. simpl in *.
        rewrite Eb, Ec, <- !app_assoc. simpl. auto 10.
Qed.

Lemma emulate_birds_spec (e : Engine.t) (pipe : Pipe.t) :
  aligned e ->
  Engine.pipes e !! Engine.current_pipe_index e = Some pipe ->
  exists e',
    Engine.emulate_birds e = Ok e'
    /\ Engine.birds e' = zip_with (emulated pipe) (Engine.networks e) (Engine.birds e)
    /\ Engine.calls e'
       = Engine.calls e ++ concat (zip_with (turn pipe) (Engine.networks e) (Engine.birds e))
    /\ Engine.networks e' = Engine.networks e
    /\ Engine.genomes e' = Engine.genomes e
    /\ Engine.pipes e' = Engine.pipes e
    /\ Engine.score e' = Engine.score e
    /\ Engine.assets e' = Engine.assets e.
Proof.
  intros Ha Hp. destruct (aligned_lengths e Ha) as [Ln Lg].
  unfold Engine.emulate_birds, Engine.for_enumerate.
  apply (emulate_loop _ pipe (Engine.birds e) (Engine.networks e) []); auto.
Qed.

Lemma activations_turns (pipe : Pipe.t) (birds : list Bird.t) :
  forall nets : list Engine.Network, length nets = length birds ->
    activations (concat (zip_with (turn pipe) nets birds))
    = map (fun bird => Engine.sensors (Bird.move bird) pipe) birds.
Proof.
  induction birds as [|bird birds IH]; intros [|net nets] Hlen;
    try discriminate; [reflexivity|].
  simpl. unfold activations in *. rewrite flat_map_app, IH by (simpl in Hlen; lia).
  destruct (jumps pipe net bird); reflexivity.
Qed.

Lemma current_pipe_index_spec (e : Engine.t) :
  (Engine.current_pipe_index e = 1%nat
   <-> exists bird0 pipe0,
         Engine.birds e !! 0%nat = Some bird0
         /\ Engine.pipes e !! 0%nat = Some pipe0
         /\ (1 < length (Engine.pipes e))%nat
         /\ Pipe.position_x pipe0 + get_width (snd (Pipe.mini_pipes pipe0))
            < fst (Bird.position bird0))
  /\ (Engine.current_pipe_index e = 0%nat \/ Engine.current_pipe_index e = 1%nat).
Proof.
  unfold Engine.current_pipe_index.
  destruct (Engine.birds e) as [|bird0 bs]; simpl.
  { split; [|auto]. split; [discriminate | intros (? & ? & ? & _); discriminate]. }
  destruct (Engine.pipes e) as [|pipe0 [|pipe1 ps]]; simpl.
  - split; [|auto]. split; [discriminate | intros (? & ? & _ & ? & _); discriminate].
  - split; [|auto]. split; [discriminate | intros (? & ? & _ & _ & ? & _); lia].
  - destruct (Z.ltb_spec (Pipe.position_x pipe0 + get_width (snd (Pipe.mini_pipes pipe0)))
                         (fst (Bird.position bird0))) as [Hlt | Hge].
    + split; [|auto]. split; [|reflexivity]. intros _.
      exists bird0, pipe0. repeat split; [lia | exact Hlt].
    + split; [|auto]. split; [discriminate|].
      intros (b & p & [= <-] & [= <-] & _ & Hlt). lia.
Qed.

(** C3, as the code has it.  In [emulate_birds] the turn of every bird is:
    [move] first, then the network on the sensors of the bird that has
    moved, then [jump] if the output is above 0.5.  The calls of the frame
    are the turns of the birds in order, and every bird ends moved, and
    jumped when its network asked for it. *)
Theorem move_before_decision (e : Engine.t) (pipe : Pipe.t) :
  aligned e ->
  Engine.pipes e !! Engine.current_pipe_index e = Some pipe ->
  exists e',
    Engine.emulate_birds e = Ok e'
    /\ Engine.calls e'
       = Engine.calls e
         ++ concat (zip_with
              (fun net bird =>
                 Engine.Move (Bird.agent bird)
                 :: Engine.Activate (Engine.net_agent net)
                      (Engine.sensors (Bird.move bird) pipe)
                 :: (if jumps pipe net bird
                     then [Engine.Jump (Bird.agent bird)] else []))
              (Engine.networks e) (Engine.birds e))
    /\ Engine.birds e'
       = zip_with (fun net bird => if jumps pipe net bird
                                   then Bird.jump (Bird.move bird)
                                   else Bird.move bird)
                  (Engine.networks e) (Engine.birds e).
Proof.
  intros Ha Hp.
  destruct (emulate_birds_spec e pipe Ha Hp) as (e' & He & Eb & Ec & _).
  exists e'. auto.
Qed.

(** C7, as the code has it.  The vectors given to the networks, in the
    order of the birds, are [y, |y - position_y[0]|, |y - height|] for the
    vertical position [y] the bird has after its move of the frame and for
    the target pipe; the target is the pipe at index 1 exactly when there
    is a bird, there are at least two pipes, and the first bird is beyond
    the first pipe's position plus the width of its upper segment, and it
    is the first pipe otherwise. *)
Theorem sensor_vectors (e : Engine.t) (target : Pipe.t) :
  aligned e ->
  Engine.pipes e !! Engine.current_pipe_index e = Some target ->
  exists e' evs,
    Engine.emulate_birds e = Ok e'
    /\ Engine.calls e' = Engine.calls e ++ evs
    /\ activations evs
       = map (fun bird =>
                let y := snd (Bird.position (Bird.move bird)) in
                (y,
                 Qabs (y - inject_Z (fst (Pipe.position_y target))),
                 Qabs (y - inject_Z (Pipe.height target)))%Q)
             (Engine.birds e)
    /\ (Engine.current_pipe_index e = 1%nat
        <-> exists bird0 pipe0,
              Engine.birds e !! 0%nat = Some bird0
              /\ Engine.pipes e !! 0%nat = Some pipe0
              /\ (1 < length (Engine.pipes e))%nat
              /\ Pipe.position_x pipe0 + get_width (snd (Pipe.mini_pipes pipe0))
                 < fst (Bird.position bird0))
    /\ (Engine.current_pipe_index e = 0%nat \/ Engine.current_pipe_index e = 1%nat).
Proof.
  intros Ha Hp.
  destruct (emulate_birds_spec e target Ha Hp) as (e' & He & _ & Ec & _).
  destruct (aligned_lengths e Ha) as [Ln _].
  exists e', (concat (zip_with (turn target) (Engine.networks e) (Engine.birds e))).
  split; [exact He|]. split; [exact Ec|].
  split; [apply activations_turns; exact Ln|].
  apply current_pipe_index_spec.
Qed.

(** ** Composite operations stay among the observable states *)

Lemma emulate_birds_observable e e' :
  observable e -> Engine.emulate_birds e = Ok e' -> observable e'.
Proof.
  intros Ho H. unfold Engine.emulate_birds, Engine.for_enumerate in H.
  eapply (loop_upto_invariant Engine.birds _ observable); [|exact Ho|exact H].
  intros i x s s' Hs Hx Hb. eapply obs_emulate_bird; eauto.
Qed.

Lemma scan_birds_observable e pipe create e' pipe' create' :
  observable e ->
  Engine.scan_birds (e, pipe, create) = Ok (e', pipe', create') -> observable e'.
Proof.
  intros Ho H. unfold Engine.scan_birds, Engine.for_enumerate in H.
  change (observable (fst (fst (e', pipe', create')))).
  eapply (loop_upto_invariant _ _
            (fun s : Engine.t * Pipe.t * bool => observable (fst (fst s))));
    [| |exact H]; [|exact Ho].
  intros i x [[e1 p1] c1] [[e2 p2] c2] Hs Hx Hb.
  exact (obs_collide i x p1 c1 e1 e2 p2 c2 Hs Hx Hb).
Qed.

Lemma scan_pipes_observable ps e create marked e' create' :
  observable e ->
  Engine.scan_pipes ps e create = Ok (marked, e', create') -> observable e'.
Proof.
  revert e create marked e' create'.
  induction ps as [|pipe ps IH]; intros e create marked e' create' Ho H; simpl in H.
  - injection H as _ <- _. exact Ho.
  - apply bind_Ok in H as ([[e1 p1] c1] & H1 & H).
    apply bind_Ok in H as ([[m2 e2] c2] & H2 & H). injection H as _ <- _.
    eapply IH; [|exact H2]. eapply scan_birds_observable; eauto.
Qed.

Lemma scan_border_observable e e' :
  observable e -> Engine.scan_border e = Ok e' -> observable e'.
Proof.
  intros Ho H. unfold Engine.scan_border, Engine.for_enumerate in H.
  eapply (loop_upto_invariant Engine.birds _ observable); [|exact Ho|exact H].
  intros i x s s' Hs Hx Hb. eapply obs_check_border; eauto.
Qed.

Lemma move_pipes_observable drawn e e' :
  observable e -> Engine.move_pipes drawn e = Ok e' -> observable e'.
Proof.
  intros Ho H. unfold Engine.move_pipes in H.
  apply bind_Ok in H as ([[marked e1] create] & H1 & H).
  apply scan_pipes_observable in H1; [|exact Ho].
  apply bind_Ok in H as ([marked2 e2] & H2 & H).
  eapply scan_border_observable; [|exact H].
  apply obs_set_pipes. destruct create.
  - eapply obs_on_pass; eauto.
  - injection H2 as _ <-. exact H1.
Qed.

Lemma frame_observable drawn e e' :
  observable e -> Engine.frame drawn e = Ok e' -> observable e'.
Proof.
  intros Ho H. unfold Engine.frame in H.
  apply bind_Ok in H as (e1 & H1 & H). apply bind_Ok in H as (e2 & H2 & H).
  eapply obs_draw_window; [|exact H].
  eapply move_pipes_observable; [|exact H2].
  eapply emulate_birds_observable; eauto.
Qed.

Lemma run_frames_observable draws e e' :
  observable e -> Engine.run_frames draws e = Ok e' -> observable e'.
Proof.
  revert e. induction draws as [|drawn draws IH]; intros e Ho H; simpl in H.
  - injection H as <-. exact Ho.
  - destruct (Engine.birds e); [injection H as <-; exact Ho|].
    apply bind_Ok in H as (e1 & H1 & H).
    eapply IH; [|exact H]. eapply frame_observable; eauto.
Qed.

Lemma delete_no_longer {A : Type} (i : nat) (l : list A) :
  (length (delete i l) <= length l)%nat.
Proof.
  revert i. induction l as [|x l IH]; intros [|i]; simpl; try lia.
  specialize (IH i). lia.
Qed.

Lemma remove_agent_no_longer i e e' :
  Engine.remove_agent i e = Ok e' ->
  (length (Engine.birds e') <= length (Engine.birds e))%nat.
Proof.
  intros H. apply remove_agent_Ok in H as (-> & _). apply delete_no_longer.
Qed.

Lemma collide_no_longer i bird s s' :
  Engine.collide i bird s = Ok s' ->
  (length (Engine.birds (fst (fst s'))) <= length (Engine.birds (fst (fst s))))%nat.
Proof.
  destruct s as [[e pipe] create]. unfold Engine.collide. intros H.
  apply bind_Ok in H as (e1 & H1 & H).
  assert (Hl : (length (Engine.birds e1) <= length (Engine.birds e))%nat).
  { destruct (Pipe.is_collision pipe bird).
    - unfold Engine.on_collision in H1. apply bind_Ok in H1 as (g & _ & H1).
      apply remove_agent_no_longer in H1. exact H1.
    - injection H1 as <-. simpl. lia. }
  destruct (negb (Pipe.is_passed pipe)).
  - destruct (Pipe.is_bird_passed pipe bird). injection H as <-. exact Hl.
  - injection H as <-. exact Hl.
Qed.

Lemma check_border_no_longer i bird e e' :
  Engine.check_border i bird e = Ok e' ->
  (length (Engine.birds e') <= length (Engine.birds e))%nat.
Proof.
  unfold Engine.check_border. destruct (Bird.hits_border bird); intros H.
  - apply remove_agent_no_longer in H. exact H.
  - injection H as <-. simpl. lia.
Qed.

Lemma emulate_bird_no_longer current i bird e e' :
  Engine.emulate_bird current i bird e = Ok e' ->
  (length (Engine.birds e') <= length (Engine.birds e))%nat.
Proof.
  unfold Engine.emulate_bird. intros H.
  apply bind_Ok in H as (g & _ & H). apply bind_Ok in H as (net & _ & H).
  apply bind_Ok in H as (pipe & _ & H).
  destruct (Qltb _ _); injection H as <-; simpl; rewrite ?length_insert; lia.
Qed.

(** The loops of the engine are over within the bound [for_enumerate]
    gives them: more iterations change nothing. *)
Lemma loops_complete (k : nat) :
  (forall s, Engine.loop_upto (fun s : Engine.t * Pipe.t * bool => Engine.birds (fst (fst s)))
               Engine.collide (length (Engine.birds (fst (fst s))) + k) 0 s
             = Engine.scan_birds s)
  /\ (forall e, Engine.loop_upto Engine.birds Engine.check_border
                  (length (Engine.birds e) + k) 0 e
                = Engine.scan_border e)
  /\ (forall e, Engine.loop_upto Engine.birds
                  (Engine.emulate_bird (Engine.current_pipe_index e))
                  (length (Engine.birds e) + k) 0 e
                = Engine.emulate_birds e).
Proof.
  split; [|split]; intros s.
  - apply (loop_upto_more (fun s : Engine.t * Pipe.t * bool => Engine.birds (fst (fst s)))).
    + intros i x s1 s2. apply collide_no_longer.
    + lia.
  - apply (loop_upto_more Engine.birds).
    + intros i x s1 s2. apply check_border_no_longer.
    + lia.
  - apply (loop_upto_more Engine.birds).
    + intros i x s1 s2. apply emulate_bird_no_longer.
    + lia.
Qed.

(** ** Runs *)

Lemma stage_observable img : observable (Scene.stage img).
Proof. unfold Scene.stage. repeat apply obs_load_asset. apply obs_new. Qed.

Lemma run_observable brain batch drawn img n e :
  Scene.run brain batch drawn img n = Ok e -> observable e.
Proof.
  unfold Scene.run. intros H. apply bind_Ok in H as (e0 & H0 & H).
  eapply run_frames_observable; [|exact H].
  eapply obs_setup; [apply stage_observable | exact H0].
Qed.

Lemma aligned_computed (e : Engine.t) :
  map Bird.agent (Engine.birds e) = Engine.genomes e ->
  map Engine.net_agent (Engine.networks e) = Engine.genomes e ->
  aligned e.
Proof. intros Hb Hn. split; assumption. Qed.

(** The flock after 87 frames, two birds removed in the last one. *)
Lemma parallel_lists_aligned_witness :
  length (Engine.birds (Scene.state_of (flock 87)))
  = length (Engine.genomes (Scene.state_of (flock 87)))
  /\ Engine.genomes (Scene.state_of (flock 87)) = [2].
Proof.
  assert (Hrun : flock 87 = Ok (Scene.state_of (flock 87))) by computed.
  pose proof (run_observable _ _ _ _ _ _ Hrun) as Hobs.
  destruct (parallel_lists_aligned (Scene.state_of (flock 87)) Hobs)
    as (Hb & _ & _).
  split; [exact Hb | computed].
Defined.

(** C2.  The scan of the collisions skips the bird that follows a removed
    one.  Three birds fly the same way for 86 frames and, in the 87th, all
    three overlap the pipe; [move_pipes] asks the pipe about the birds 1
    and 3 only, removes them, and leaves the bird 2 in the lists though it
    collides. *)
Theorem collision_scan_skips :
  let at_pipe := Scene.state_of (Scene.then_emulate (flock 86)) in
  let after := Scene.state_of (Engine.move_pipes 449 at_pipe) in
  Scene.then_emulate (flock 86) = Ok at_pipe
  /\ map (fun bird => (Bird.agent bird,
                       map (fun pipe => Pipe.is_collision pipe bird)
                           (Engine.pipes at_pipe)))
         (Engine.birds at_pipe)
     = [(1, [true]); (2, [true]); (3, [true])]
  /\ Engine.move_pipes 449 at_pipe = Ok after
  /\ Scene.news at_pipe after
     = [Engine.IsCollision 1; Engine.IsBirdPassed 1 false;
        Engine.IsCollision 3; Engine.IsBirdPassed 3 false;
        Engine.HitsBorder 2]
  /\ map Bird.agent (Engine.birds after) = [2].
Proof. cbv zeta. conjuncts; computed. Qed.

(** The scan of the borders does the same: of two birds that are both out
    of bounds in the 23rd frame, only the first is asked and removed. *)
Lemma border_scan_skips :
  let falling := Scene.state_of (Scene.then_emulate (fallers 22)) in
  let after := Scene.state_of (Engine.move_pipes 50 falling) in
  Scene.then_emulate (fallers 22) = Ok falling
  /\ map (fun bird => (Bird.agent bird, Bird.hits_border bird)) (Engine.birds falling)
     = [(1, true); (2, true)]
  /\ Engine.move_pipes 50 falling = Ok after
  /\ Scene.news falling after
     = [Engine.IsCollision 1; Engine.IsBirdPassed 1 false;
        Engine.IsCollision 2; Engine.IsBirdPassed 2 false;
        Engine.HitsBorder 1]
  /\ map Bird.agent (Engine.birds after) = [2].
Proof. cbv zeta. conjuncts; computed. Qed.

(** C3, as it is stated, fails: in the first frame the bird is at 350, the
    network is given 351.5, the position after the move of that frame, and
    [Move] comes before [Activate] in the calls. *)
Lemma decision_sees_moved_bird :
  let start := Scene.state_of (loner 0) in
  let after := Scene.state_of (Engine.emulate_birds start) in
  let pipe := Pipe.new Engine.PIPE_POSITION_X Scene.slit 50 in
  loner 0 = Ok start
  /\ Engine.pipes start = [pipe]
  /\ map (fun bird => snd (Bird.position bird)) (Engine.birds start) = [350%Q]
  /\ Engine.emulate_birds start = Ok after
  /\ Scene.news start after
     = [Engine.Move 1; Engine.Activate 1 (703 # 2, 3 # 2, 603 # 2)%Q; Engine.Jump 1]
  /\ activations (Scene.news start after)
     <> map (fun bird => Engine.sensors bird pipe) (Engine.birds start).
Proof.
  cbv zeta. conjuncts; try computed.
  vm_compute. intros H. discriminate H.
Qed.

(** The first frame of the lone bird: it ends jumped, its counter at 0. *)
Lemma move_before_decision_witness :
  exists e',
    Engine.emulate_birds (Scene.state_of (loner 0)) = Ok e'
    /\ map Bird.tick_frame (Engine.birds e') = [0].
Proof.
  destruct (move_before_decision (Scene.state_of (loner 0))
              (Pipe.new Engine.PIPE_POSITION_X Scene.slit 50))
    as (e' & He & _ & Eb).
  - apply aligned_computed; computed.
  - computed.
  - exists e'. split; [exact He|]. rewrite Eb. computed.
Defined.

(** C7, as it is stated, fails: after 87 frames the only pipe is at 215,
    2 wide, the bird at 220 is beyond it, and the target is still the
    first pipe. *)
Lemma single_pipe_behind_bird :
  let e := Scene.state_of (loner 87) in
  loner 87 = Ok e
  /\ length (Engine.pipes e) = 1%nat
  /\ ~ (Engine.current_pipe_index e = 1%nat
        <-> exists bird0 pipe0,
              Engine.birds e !! 0%nat = Some bird0
              /\ Engine.pipes e !! 0%nat = Some pipe0
              /\ Pipe.position_x pipe0 + get_width (snd (Pipe.mini_pipes pipe0))
                 < fst (Bird.position bird0)).
Proof.
  cbv zeta. split; [computed|]. split; [computed|]. intros [_ H].
  assert (E : Engine.current_pipe_index (Scene.state_of (loner 87)) = 1%nat).
  { apply H.
    exists (hd Scene.fresh (Engine.birds (Scene.state_of (loner 87)))),
           (hd (Pipe.new 0 Scene.slit 0) (Engine.pipes (Scene.state_of (loner 87)))).
    split; [computed|]. split; [computed|]. computed. }
  vm_compute in E. discriminate E.
Qed.

(** The lone bird after 88 frames, two pipes on the screen and the first
    behind it: the target is the second. *)
Lemma sensor_vectors_witness :
  exists e' evs,
    Engine.emulate_birds (Scene.state_of (loner 88)) = Ok e'
    /\ Engine.calls e' = Engine.calls (Scene.state_of (loner 88)) ++ evs
    /\ length (activations evs) = 1%nat
    /\ Engine.current_pipe_index (Scene.state_of (loner 88)) = 1%nat.
Proof.
  destruct (sensor_vectors (Scene.state_of (loner 88))
              (Pipe.new Engine.PIPE_POSITION_X Scene.slit 50))
    as (e' & evs & He & Ec & Ea & _).
  - apply aligned_computed; computed.
  - computed.
  - exists e', evs. split; [exact He|]. split; [exact Ec|].
    split; [rewrite Ea; computed | computed].
Defined.


(** The first bird of the flock at the pipe, in the 87th frame. *)
Lemma collision_penalty_witness :
  exists e' pipe' create',
    Engine.collide 0
      (hd Scene.fresh (Engine.birds (Scene.state_of (Scene.then_emulate (flock 86)))))
      (Scene.state_of (Scene.then_emulate (flock 86)),
       hd (Pipe.new 0 Scene.trunk 0)
          (Engine.pipes (Scene.state_of (Scene.then_emulate (flock 86)))),
       false)
    = Ok (e', pipe', create')
    /\ Engine.genomes e' = [2; 3]
    /\ Engine.fitness e' 1
       = (Engine.fitness (Scene.state_of (Scene.then_emulate (flock 86))) 1
          - Engine.FITNESS_DECREASE)%Q.
Proof.
  destruct (collision_penalty 0
              (hd Scene.fresh
                 (Engine.birds (Scene.state_of (Scene.then_emulate (flock 86)))))
              (hd (Pipe.new 0 Scene.trunk 0)
                 (Engine.pipes (Scene.state_of (Scene.then_emulate (flock 86)))))
              false (Scene.state_of (Scene.then_emulate (flock 86))))
    as (e' & pipe' & create' & Hc & _ & Hf & _ & _ & _ & _ & Hg & _).
  all: try assert (Hb : Bird.agent (hd Scene.fresh
                     (Engine.birds (Scene.state_of (Scene.then_emulate (flock 86))))) = 1)
             by computed.
  - apply aligned_computed; computed.
  - distinct_keys.
  - computed.
  - computed.
  - exists e', pipe', create'. split; [exact Hc|].
    split; [rewrite Hg; computed | rewrite Hb in Hf; exact Hf].
Defined.

(** * Further properties of the code *)

(** ** Assets *)

Lemma AssetType_eqb_eq (a b : Engine.AssetType) :
  Engine.AssetType_eqb a b = true <-> a = b.
Proof. destruct a, b; simpl; split; intros H; congruence. Qed.

(** [load_asset] then [__get_assets]: the surface comes last among the
    assets of its type, the assets of the other types are the same, and a
    new engine has none. *)
Theorem load_asset_get_assets (ty : Engine.AssetType) (s : Surface) (e : Engine.t) :
  Engine.get_assets (Engine.load_asset ty s e) ty = Engine.get_assets e ty ++ [s]
  /\ (forall ty', ty' <> ty ->
        Engine.get_assets (Engine.load_asset ty s e) ty' = Engine.get_assets e ty')
  /\ (forall ty', Engine.get_assets Engine.new ty' = []).
Proof.
  unfold Engine.get_assets, Engine.load_asset. simpl.
  split; [|split].
  - rewrite List.filter_app, map_app. simpl.
    rewrite (proj2 (AssetType_eqb_eq ty ty) eq_refl). reflexivity.
  - intros ty' Hne. rewrite List.filter_app, map_app. simpl.
    destruct (Engine.AssetType_eqb ty ty') eqn:E.
    + apply AssetType_eqb_eq in E. congruence.
    + simpl. apply app_nil_r.
  - reflexivity.
Qed.

(** ** The bird in flight *)

Lemma flying_invariant (b : Bird.t) :
  flying b ->
  (Bird.velocity b = 0 \/ Bird.velocity b = Bird.BIRD_JUMP_VELOCITY)
  /\ 0 <= Bird.tick_frame b
  /\ 0 <= Bird.animation_frame b
  /\ Bird.images b
     !! Z.to_nat (Bird.animation_frame b mod Z.of_nat (length (Bird.images b)))
     = Some (Bird.image b).
Proof.
  induction 1 as [key pos imgs b H | b _ IH | b _ IH | b b' _ IH H].
  - unfold Bird.new in H. apply bind_Ok in H as (img & Himg & H).
    injection H as <-. simpl. apply getitem_Ok in Himg.
    split; [auto|]. split; [lia|]. split; [lia|].
    destruct imgs as [|i0 imgs]; [discriminate|]. exact Himg.
  - destruct IH as (Hv & Ht & Ha & Hi). simpl.
    split; [exact Hv|]. split; [lia|]. split; [exact Ha | exact Hi].
  - destruct IH as (Hv & Ht & Ha & Hi). simpl.
    split; [auto|]. split; [lia|]. split; [exact Ha | exact Hi].
  - destruct IH as (Hv & Ht & Ha & Hi). unfold Bird.draw in H.
    destruct (Bird.images b) as [|i0 imgs] eqn:E; [discriminate|].
    apply bind_Ok in H as (img & Himg & H). injection H as <-. simpl.
    apply getitem_Ok in Himg.
    split; [exact Hv|]. split; [exact Ht|]. split; [lia|].
    exact Himg.
Qed.

Lemma formula_jump_low (t : Z) :
  (- (33 # 2) <= Bird.formula Bird.BIRD_JUMP_VELOCITY t)%Q.
Proof.
  rewrite formula_poly. unfold Bird.BIRD_JUMP_VELOCITY.
  assert (Hz : 20 * t <= 3 * (t * t) + 33).
  { assert (0 <= (3 * t - 11) * (t - 3)); [|lia].
    destruct (Z_le_gt_dec t 3);
      [apply Z.mul_nonpos_nonpos | apply Z.mul_nonneg_nonneg]; lia. }
  rewrite Zle_Qle in Hz.
  rewrite inject_Z_plus, !inject_Z_mult in Hz.
  set (T := inject_Z t) in *. set (TT := (T * T)%Q) in *.
  change (inject_Z 3) with 3%Q in Hz.
  change (inject_Z 20) with 20%Q in Hz. change (inject_Z 33) with 33%Q in Hz.
  change (inject_Z (-10)) with (-10)%Q. lra.
Qed.

Lemma formula_fall_low (t : Z) : 1 <= t -> (3 # 2 <= Bird.formula 0 t)%Q.
Proof.
  intros Ht. rewrite formula_poly.
  assert (Hz : 1 <= t * t) by nia.
  rewrite Zle_Qle in Hz. rewrite inject_Z_mult in Hz.
  set (T := inject_Z t) in *. set (TT := (T * T)%Q) in *.
  change (inject_Z 1) with 1%Q in Hz. change (inject_Z 0) with 0%Q. lra.
Qed.

(** The displacement of a move of a bird in flight is between -16.5 and
    16, and at least 1.5 for a bird that never jumped: such a bird goes
    down at every move. *)
Theorem displacement_bounds (b : Bird.t) :
  flying b ->
  (- (33 # 2) <= Bird.distance b)%Q
  /\ (Bird.distance b <= 16)%Q
  /\ (Bird.velocity b = 0 -> (3 # 2 <= Bird.distance b)%Q).
Proof.
  intros Hf. destruct (flying_invariant b Hf) as (Hv & Ht & _).
  destruct (distance_cases b) as [[H1 E]|[H1 E]]; simpl in H1.
  - rewrite E. split; [lra|]. split; [lra|]. intros _. lra.
  - rewrite E. split; [|split].
    + destruct Hv as [-> | ->].
      * pose proof (formula_fall_low (Bird.tick_frame b + 1) ltac:(lia)). lra.
      * apply formula_jump_low.
    + lra.
    + intros ->. apply formula_fall_low. lia.
Qed.

Lemma flying_hatch (key : Z) (img : Surface) : flying (Scene.hatch key img).
Proof.
  apply (fly_new key (Engine.BIRD_POSITION_X, inject_Z Engine.BIRD_POSITION_Y) [img]).
  reflexivity.
Qed.

(** The bird of a new generation, after a jump and two moves. *)
Lemma displacement_bounds_witness :
  (- (33 # 2) <= Bird.distance (Nat.iter 2 Bird.move Scene.jumped))%Q
  /\ (Bird.distance (Nat.iter 2 Bird.move Scene.jumped) <= 16)%Q.
Proof.
  destruct (displacement_bounds (Nat.iter 2 Bird.move Scene.jumped)) as (Hlo & Hhi & _).
  - simpl. apply fly_move, fly_move, fly_jump, flying_hatch.
  - split; [exact Hlo | exact Hhi].
Defined.

Lemma draw_flying (b : Bird.t) :
  flying b ->
  exists img,
    Bird.images b
    !! Z.to_nat ((Bird.animation_frame b + 1) mod Z.of_nat (length (Bird.images b)))
    = Some img
    /\ Bird.draw b
       = Ok (Bird.mk (Bird.agent b) (Bird.position b) (Bird.rotation b)
                     (Bird.velocity b) (Bird.jump_position b)
                     (Bird.animation_frame b + 1) (Bird.tick_frame b)
                     (Bird.images b) img).
Proof.
  intros Hf. destruct (flying_invariant b Hf) as (_ & _ & _ & Hi).
  unfold Bird.draw. destruct (Bird.images b) as [|i0 imgs] eqn:E; [discriminate|].
  set (len := Z.of_nat (length (i0 :: imgs))).
  assert (Hlen : 0 < len) by (unfold len; simpl; lia).
  pose proof (Z.mod_pos_bound (Bird.animation_frame b + 1) len Hlen) as Hr.
  destruct (lookup_lt_is_Some_2 (i0 :: imgs)
              (Z.to_nat ((Bird.animation_frame b + 1) mod len))) as [img Himg].
  { unfold len in *. lia. }
  exists img. split; [exact Himg|]. unfold getitem. fold len. rewrite Himg. reflexivity.
Qed.

(** [draw] never raises on a bird in flight and takes the images in turn:
    after [k] calls the image is the one at the index [animation_frame]
    modulo the number of images, so it is the same again after as many calls
    as there are images; the position, the velocity and the tick counter are
    left alone. *)
Theorem animation_cycles (b : Bird.t) (k : nat) :
  flying b ->
  exists b',
    times k Bird.draw b = Ok b'
    /\ Bird.animation_frame b' = Bird.animation_frame b + Z.of_nat k
    /\ Bird.images b
       !! Z.to_nat (Bird.animation_frame b' mod Z.of_nat (length (Bird.images b)))
       = Some (Bird.image b')
    /\ (k = length (Bird.images b) -> Bird.image b' = Bird.image b)
    /\ Bird.images b' = Bird.images b
    /\ Bird.position b' = Bird.position b
    /\ Bird.velocity b' = Bird.velocity b
    /\ Bird.tick_frame b' = Bird.tick_frame b
    /\ Bird.jump_position b' = Bird.jump_position b
    /\ Bird.rotation b' = Bird.rotation b.
Proof.
  intros Hf.
  assert (H : exists b',
             times k Bird.draw b = Ok b'
             /\ flying b'
             /\ Bird.animation_frame b' = Bird.animation_frame b + Z.of_nat k
             /\ Bird.images b' = Bird.images b
             /\ Bird.position b' = Bird.position b
             /\ Bird.velocity b' = Bird.velocity b
             /\ Bird.tick_frame b' = Bird.tick_frame b
             /\ Bird.jump_position b' = Bird.jump_position b
             /\ Bird.rotation b' = Bird.rotation b).
  { revert b Hf. induction k as [|k IH]; intros b Hf.
    - exists b. simpl. rewrite Z.add_0_r. auto 10.
    - destruct (draw_flying b Hf) as (img & _ & Hd).
      cbn [times]. rewrite Hd. cbn [bind].
      edestruct IH as (b' & -> & Hf' & Ea & Ei & Ep & Ev & Et & Ej & Er).
      { eapply fly_draw; [exact Hf | exact Hd]. }
      exists b'. simpl in *. rewrite Ea, Nat2Z.inj_succ.
      split; [reflexivity|]. split; [exact Hf'|]. split; [lia|]. auto 10. }
  destruct H as (b' & Hd & Hf' & Ea & Ei & Ep & Ev & Et & Ej & Er).
  destruct (flying_invariant b' Hf') as (_ & _ & _ & Hi'). rewrite Ei in Hi'.
  destruct (flying_invariant b Hf) as (_ & _ & _ & Hi).
  exists b'. split; [exact Hd|]. split; [exact Ea|]. split; [exact Hi'|].
  split; [|auto 10].
  intros ->. rewrite Ea in Hi'.
  replace (Bird.animation_frame b + Z.of_nat (length (Bird.images b)))
    with (Bird.animation_frame b + 1 * Z.of_nat (length (Bird.images b))) in Hi' by lia.
  rewrite Z_mod_plus_full in Hi'. congruence.
Qed.

(** The bird of a new generation with three images, drawn three times. *)
Lemma animation_cycles_witness :
  exists b',
    times 3 Bird.draw Scene.painted
    = Ok b'
    /\ Bird.image b' = Scene.dot.
Proof.
  destruct (animation_cycles Scene.painted 3)
    as (b' & Hd & _ & _ & Hi & _).
  - apply (fly_new 1 (Engine.BIRD_POSITION_X, inject_Z Engine.BIRD_POSITION_Y)
                   [Scene.dot; Scene.tall; Scene.wide]).
    reflexivity.
  - exists b'. split; [exact Hd | apply Hi; reflexivity].
Defined.

(** ** The height of a jump *)

Lemma iter_move_position (k : nat) (b : Bird.t) :
  (snd (Bird.position (Nat.iter k Bird.move b)) == snd (Bird.position b) + climb k b)%Q.
Proof.
  induction k as [|k IH].
  - simpl. ring.
  - change (snd (Bird.position (Nat.iter (S k) Bird.move b)))
      with (snd (Bird.position (Nat.iter k Bird.move b))
            + Bird.distance (Nat.iter k Bird.move b))%Q.
    rewrite IH. simpl. ring.
Qed.

Lemma formula_jump_high (t : Z) :
  8 <= t -> (16 <= Bird.formula Bird.BIRD_JUMP_VELOCITY t)%Q.
Proof.
  intros Ht. rewrite formula_poly. unfold Bird.BIRD_JUMP_VELOCITY.
  assert (Hz : 20 * t + 32 <= 3 * (t * t)).
  { assert (0 <= (3 * t + 4) * (t - 8)); [|lia]. apply Z.mul_nonneg_nonneg; lia. }
  rewrite Zle_Qle in Hz.
  rewrite inject_Z_plus, !inject_Z_mult in Hz.
  set (T := inject_Z t) in *. set (TT := (T * T)%Q) in *.
  change (inject_Z 3) with 3%Q in Hz. change (inject_Z 32) with 32%Q in Hz.
  change (inject_Z 20) with 20%Q in Hz.
  change (inject_Z (-10)) with (-10)%Q. lra.
Qed.

Lemma distance_jump_late (k : nat) (b : Bird.t) :
  (7 <= k)%nat -> Bird.distance (Nat.iter k Bird.move (Bird.jump b)) = 16%Q.
Proof.
  intros Hk.
  destruct (distance_cases (Nat.iter k Bird.move (Bird.jump b))) as [[_ E]|[Hlt _]];
    [exact E|].
  cbv zeta in Hlt. rewrite iter_move_velocity, iter_move_tick in Hlt.
  change (Bird.velocity (Bird.jump b)) with Bird.BIRD_JUMP_VELOCITY in Hlt.
  change (Bird.tick_frame (Bird.jump b)) with 0 in Hlt.
  pose proof (formula_jump_high (0 + Z.of_nat k + 1) ltac:(lia)) as Hge.
  lra.
Qed.

Lemma climb_jump_late (k : nat) (b : Bird.t) :
  (climb (12 + k) (Bird.jump b) == 10 + 16 * inject_Z (Z.of_nat k))%Q.
Proof.
  induction k as [|k IH].
  - vm_compute. reflexivity.
  - rewrite Nat.add_succ_r. cbn [climb]. rewrite IH.
    rewrite distance_jump_late by lia.
    rewrite Nat2Z.inj_succ. unfold Z.succ. rewrite inject_Z_plus.
    change (inject_Z 1) with 1%Q. ring.
Qed.

Lemma climb_jump_early (b : Bird.t) :
  forallb (fun k => Qle_bool (- (147 # 2)) (climb k (Bird.jump b))
                    && Qltb (climb (S k) (Bird.jump b)) 0)
          (seq 0 11)
  = true.
Proof. vm_compute. reflexivity. Qed.

Lemma climb_jump_bounds (b : Bird.t) (n : nat) :
  ((n <= 11)%nat -> (- (147 # 2) <= climb n (Bird.jump b))%Q
                    /\ ((1 <= n)%nat -> (climb n (Bird.jump b) < 0)%Q))
  /\ ((12 <= n)%nat -> (10 <= climb n (Bird.jump b))%Q).
Proof.
  split.
  - intros Hn. pose proof (climb_jump_early b) as He. rewrite forallb_forall in He.
    split.
    + destruct (Nat.eq_dec n 11%nat) as [-> | Hne].
      * vm_compute. discriminate.
      * specialize (He n). rewrite in_seq in He.
        apply andb_true_iff in He as [He _]; [|lia].
        apply Qle_bool_iff in He. exact He.
    + intros H1. specialize (He (n - 1)%nat). rewrite in_seq in He.
      apply andb_true_iff in He as [_ He]; [|lia].
      replace (S (n - 1)) with n in He by lia. apply Qltb_lt in He. exact He.
  - intros Hn. replace n with (12 + (n - 12))%nat by lia.
    rewrite climb_jump_late.
    assert (H0 : (0 <= inject_Z (Z.of_nat (n - 12)))%Q).
    { change 0%Q with (inject_Z 0). rewrite <- Zle_Qle. lia. }
    lra.
Qed.

(** A jump lifts the bird by 73.5 at most.  With no other jump, the bird is
    above the position of the jump for the 11 moves that follow, highest,
    73.5 above, at the sixth, and below that position from the twelfth move
    on. *)
Theorem jump_height (b : Bird.t) (k : nat) :
  let y := fun n => snd (Bird.position (Nat.iter n Bird.move (Bird.jump b))) in
  (y 0%nat - (147 # 2) <= y k)%Q
  /\ (y 6%nat == y 0%nat - (147 # 2))%Q
  /\ ((1 <= k <= 11)%nat -> (y k < y 0%nat)%Q)
  /\ ((12 <= k)%nat -> (y 0%nat < y k)%Q).
Proof.
  intros y. unfold y. rewrite !iter_move_position.
  change (climb 0 (Bird.jump b)) with 0%Q.
  assert (H6 : (climb 6 (Bird.jump b) == - (147 # 2))%Q) by (vm_compute; reflexivity).
  destruct (climb_jump_bounds b k) as [Hearly Hlate].
  split; [|split; [|split]].
  - destruct (le_lt_dec k 11%nat) as [Hk | Hk].
    + destruct (Hearly Hk) as [Hlo _]. lra.
    + pose proof (Hlate ltac:(lia)). lra.
  - rewrite H6. ring.
  - intros [H1 H11]. destruct (Hearly H11) as [_ Hneg]. specialize (Hneg H1). lra.
  - intros Hk. pose proof (Hlate Hk). lra.
Qed.

(** ** The rotation *)

Lemma iter_move_jump_position (k : nat) (b : Bird.t) :
  Bird.jump_position (Nat.iter k Bird.move b) = Bird.jump_position b.
Proof. induction k as [|k IH]; simpl; [reflexivity | exact IH]. Qed.

Lemma flying_low (b : Bird.t) :
  flying b -> Bird.velocity b = 0 ->
  (Bird.jump_position b <= snd (Bird.position b))%Q.
Proof.
  induction 1 as [key pos imgs b H | b Hf IH | b _ IH | b b' _ IH H]; intros Hv.
  - unfold Bird.new in H. apply bind_Ok in H as (img & _ & H).
    injection H as <-. simpl. apply Qle_refl.
  - simpl in Hv. specialize (IH Hv). simpl.
    destruct (flying_invariant b Hf) as (_ & Ht & _).
    assert (Hd : (0 <= Bird.distance b)%Q).
    { destruct (distance_cases b) as [[_ ->]|[_ ->]]; [lra|]. simpl. rewrite Hv.
      pose proof (formula_fall_low (Bird.tick_frame b + 1) ltac:(lia)). lra. }
    lra.
  - discriminate Hv.
  - unfold Bird.draw in H. destruct (Bird.images b); [discriminate|].
    apply bind_Ok in H as (img & _ & H). injection H as <-. simpl in *. auto.
Qed.

(** [move] turns the bird up, by 25, when it goes up or is above the
    position of its last jump, and down otherwise.  So a bird that never
    jumped points down after every move, and a bird that jumped points up
    for the 11 moves that follow the jump and down from the twelfth on. *)
Theorem rotation_follows_flight :
  (forall b, flying b -> Bird.velocity b = 0 ->
             Bird.rotation (Bird.move b) = - Bird.BIRD_MAX_ROTATION)
  /\ (forall b k, (1 <= k)%nat ->
        Bird.rotation (Nat.iter k Bird.move (Bird.jump b))
        = if (k <=? 11)%nat then Bird.BIRD_MAX_ROTATION else - Bird.BIRD_MAX_ROTATION).
Proof.
  split.
  - intros b Hf Hv. pose proof (flying_low b Hf Hv) as Hlow.
    destruct (flying_invariant b Hf) as (_ & Ht & _).
    assert (Hd : (3 # 2 <= Bird.distance b)%Q).
    { destruct (distance_cases b) as [[_ ->]|[_ ->]]; [lra|]. simpl. rewrite Hv.
      apply formula_fall_low. lia. }
    unfold Bird.move. cbn [Bird.rotation].
    rewrite (proj2 (Qltb_ge _ _)) by lra. rewrite (proj2 (Qltb_ge _ _)) by lra.
    reflexivity.
  - intros b [|k] Hk; [lia|]. simpl Nat.iter.
    set (X := Nat.iter k Bird.move (Bird.jump b)).
    pose proof (iter_move_position (S k) (Bird.jump b)) as Hy.
    change (Nat.iter (S k) Bird.move (Bird.jump b)) with (Bird.move X) in Hy.
    change (snd (Bird.position (Bird.move X)))
      with (snd (Bird.position X) + Bird.distance X)%Q in Hy.
    change (snd (Bird.position (Bird.jump b))) with (snd (Bird.position b)) in Hy.
    assert (Hjp : Bird.jump_position X = snd (Bird.position b)).
    { unfold X. rewrite iter_move_jump_position. reflexivity. }
    destruct (climb_jump_bounds b (S k)) as [Hearly Hlate].
    unfold Bird.move. cbn [Bird.rotation]. rewrite Hjp.
    destruct (Nat.leb_spec (S k) 11) as [Hle | Hgt].
    + destruct (Hearly Hle) as [_ Hneg]. specialize (Hneg ltac:(lia)).
      rewrite (proj2 (Qltb_lt (snd (Bird.position X) + Bird.distance X)%Q _)) by lra.
      rewrite orb_true_r. reflexivity.
    + specialize (Hlate ltac:(lia)).
      unfold X at 1. rewrite distance_jump_late by lia.
      rewrite (proj2 (Qltb_ge (snd (Bird.position X) + Bird.distance X)%Q _)) by lra.
      reflexivity.
Qed.

(** ** The pipe on the window *)

Lemma iter_move_position_y (n : nat) (p : Pipe.t) :
  Pipe.position_y (Nat.iter n Pipe.move p) = Pipe.position_y p.
Proof. induction n as [|n IH]; simpl; [reflexivity | exact IH]. Qed.

(** [draw] puts the image at [height + 300] and the flipped image so that
    its lower edge is at [height]: the gap between the two is 300 high, at
    the horizontal position of the pipe, however far the pipe has moved. *)
Theorem pipe_gap (img : Surface) (x drawn : Z) (n : nat) :
  exists bottom top,
    Pipe.draw (Nat.iter n Pipe.move (Pipe.new x img drawn))
    = [(img, bottom); (flip img, top)]
    /\ fst bottom = x - Pipe.PIPE_VELOCITY * Z.of_nat n
    /\ fst top = x - Pipe.PIPE_VELOCITY * Z.of_nat n
    /\ snd top + get_height (flip img) = drawn
    /\ snd bottom = drawn + Pipe.PIPE_GAP
    /\ snd bottom - (snd top + get_height (flip img)) = Pipe.PIPE_GAP.
Proof.
  unfold Pipe.draw.
  rewrite iter_move_position_x, iter_move_mini_pipes, iter_move_position_y.
  simpl. eexists _, _. split; [reflexivity|]. simpl. repeat split; lia.
Qed.

Lemma overlap_true (self other : Mask) (offset : Z * Z) :
  overlap self other offset = true
  <-> exists p q, In p self /\ In q other
                  /\ fst q = fst p - fst offset /\ snd q = snd p - snd offset.
Proof.
  unfold overlap. rewrite existsb_exists. split.
  - intros (p & Hp & H). apply existsb_exists in H as (q & Hq & H).
    unfold pixel_eqb in H. apply andb_true_iff in H as [H1 H2].
    apply Z.eqb_eq in H1, H2. simpl in H1, H2. exists p, q. auto.
  - intros (p & q & Hp & Hq & H1 & H2). exists p. split; [exact Hp|].
    apply existsb_exists. exists q. split; [exact Hq|].
    unfold pixel_eqb. simpl. rewrite H1, H2, !Z.eqb_refl. reflexivity.
Qed.

Lemma bounded_in (s : Surface) (p : Z * Z) :
  bounded s -> In p (solid s) ->
  0 <= fst p < get_width s /\ 0 <= snd p < get_height s.
Proof.
  unfold bounded. rewrite Forall_forall. intros H Hp.
  apply (H p). apply list_elem_of_In. exact Hp.
Qed.

Lemma bounded_flip (s : Surface) : bounded s -> bounded (flip s).
Proof.
  unfold bounded, flip. simpl. rewrite !Forall_forall. intros H p Hp.
  apply list_elem_of_In, in_map_iff in Hp as (q & <- & Hq).
  apply list_elem_of_In in Hq. specialize (H q Hq). simpl. lia.
Qed.

Lemma bounded_checked (s : Surface) :
  forallb (fun p => (0 <=? fst p) && (fst p <? get_width s)
                    && (0 <=? snd p) && (snd p <? get_height s)) (solid s) = true ->
  bounded s.
Proof.
  rewrite forallb_forall. intros H. unfold bounded. apply Forall_forall.
  intros p Hp. apply list_elem_of_In in Hp. specialize (H p Hp).
  rewrite !andb_true_iff in H. destruct H as [[[H1 H2] H3] H4].
  apply Z.leb_le in H1, H3. apply Z.ltb_lt in H2, H4. lia.
Qed.

(** A pipe collides with a bird only if the two sprites share a column and
    the bird sticks out of the gap: the rounded top of the bird is above
    [height], or its bottom is below [height + 300]. *)
Theorem collision_needs_contact (img : Surface) (x drawn : Z) (n : nat)
    (bird : Bird.t) :
  let pipe := Nat.iter n Pipe.move (Pipe.new x img drawn) in
  bounded img -> bounded (Bird.image bird) ->
  Pipe.is_collision pipe bird = true ->
  (Pipe.position_x pipe
   < fst (Bird.position bird) + get_width (Bird.image bird)
   /\ fst (Bird.position bird) < Pipe.position_x pipe + get_width img)
  /\ (py_round (snd (Bird.position bird)) < drawn
      \/ drawn + Pipe.PIPE_GAP
         < py_round (snd (Bird.position bird)) + get_height (Bird.image bird)).
Proof.
  intros pipe Hpipe Hbird Hcol.
  assert (Em : Pipe.mini_pipes pipe = (img, flip img)).
  { unfold pipe. rewrite iter_move_mini_pipes. reflexivity. }
  assert (Ey : Pipe.position_y pipe
               = (drawn + Pipe.PIPE_GAP, drawn - get_height img)).
  { unfold pipe. rewrite iter_move_position_y. reflexivity. }
  unfold Pipe.is_collision in Hcol. cbv zeta in Hcol. rewrite Em, Ey in Hcol.
  cbn [fst snd] in Hcol. unfold Bird.get_mask, from_surface in Hcol.
  apply orb_true_iff in Hcol as [H | H];
    apply overlap_true in H as (p & q & Hp & Hq & Hx & Hy); cbn [fst snd] in Hx, Hy;
    apply (bounded_in _ _ Hbird) in Hp.
  - apply (bounded_in _ _ Hpipe) in Hq.
    unfold Pipe.PIPE_GAP in *. split; [lia | right; lia].
  - apply (bounded_in _ _ (bounded_flip _ Hpipe)) in Hq. simpl in Hq.
    split; [lia | left; lia].
Qed.

(** The bird of a new generation, in the upper segment of an opaque pipe. *)
Lemma collision_needs_contact_witness :
  py_round (snd (Bird.position Scene.fresh)) < 449.
Proof.
  destruct (collision_needs_contact Scene.trunk 220 449 0 Scene.fresh)
    as [_ [H | H]].
  - apply bounded_checked. vm_compute. reflexivity.
  - apply bounded_checked. vm_compute. reflexivity.
  - vm_compute. reflexivity.
  - exact H.
  - vm_compute in H. discriminate H.
Defined.

(** ** The ground *)

Lemma base_move_pair (x0 x1 y : Z) (img : Surface) :
  let w := get_width img in
  let a0 := x0 - Base.BASE_VELOCITY in
  let a1 := x1 - Base.BASE_VELOCITY in
  let b0 := if a0 + w <? 0 then a1 + w else a0 in
  let b1 := if a1 + w <? 0 then b0 + w else a1 in
  Base.move (Base.mk [x0; x1] y img) = Ok (Base.mk [b0; b1] y img).
Proof.
  cbv zeta. unfold Base.move, Engine.for_enumerate, Base.wrap.
  cbn [Base.position_x Base.position_y Base.image map length Engine.loop_upto
       lookup list_lookup].
  destruct (x0 - Base.BASE_VELOCITY + get_width img <? 0) eqn:E0;
    cbn [bind getitem Nat.add Nat.modulo Nat.divmod fst snd Nat.sub lookup list_lookup
         Base.position_x Base.position_y Base.image insert list_insert
         Engine.loop_upto];
    destruct (x1 - Base.BASE_VELOCITY + get_width img <? 0) eqn:E1;
    reflexivity.
Qed.

Lemma belt_step (x y : Z) (img : Surface) (swapped : bool) :
  Base.BASE_VELOCITY <= get_width img ->
  - get_width img <= x <= 0 ->
  exists (x' : Z) (swapped' : bool),
    Base.move (Base.mk (if swapped then [x + get_width img; x] else [x; x + get_width img])
                       y img)
    = Ok (Base.mk (if swapped' then [x' + get_width img; x'] else [x'; x' + get_width img])
                  y img)
    /\ - get_width img <= x' <= 0.
Proof.
  unfold Base.BASE_VELOCITY. intros Hw Hx.
  destruct (Z_lt_le_dec (x + get_width img) 5) as [Hwrap | Hstay].
  - exists (x + get_width img - 5), (negb swapped). split; [|lia].
    destruct swapped; rewrite base_move_pair; cbv zeta; unfold Base.BASE_VELOCITY; simpl negb.
    + rewrite (proj2 (Z.ltb_ge _ _)) by lia. rewrite (proj2 (Z.ltb_lt _ _)) by lia.
      repeat f_equal; lia.
    + rewrite (proj2 (Z.ltb_lt _ _)) by lia. rewrite (proj2 (Z.ltb_ge _ _)) by lia.
      repeat f_equal; lia.
  - exists (x - 5), swapped. split; [|lia].
    destruct swapped; rewrite base_move_pair; cbv zeta; unfold Base.BASE_VELOCITY.
    + rewrite !(proj2 (Z.ltb_ge _ _)) by lia.
      repeat f_equal; lia.
    + rewrite !(proj2 (Z.ltb_ge _ _)) by lia.
      repeat f_equal; lia.
Qed.

Lemma belt_steps (n : nat) (y : Z) (img : Surface) :
  Base.BASE_VELOCITY <= get_width img ->
  forall (x : Z) (swapped : bool),
    - get_width img <= x <= 0 ->
    exists (x' : Z) (swapped' : bool),
      times n Base.move
        (Base.mk (if swapped then [x + get_width img; x] else [x; x + get_width img])
                 y img)
      = Ok (Base.mk (if swapped' then [x' + get_width img; x'] else [x'; x' + get_width img])
                    y img)
      /\ - get_width img <= x' <= 0.
Proof.
  intros Hw. induction n as [|n IH]; intros x swapped Hx.
  - exists x, swapped. split; [reflexivity | exact Hx].
  - destruct (belt_step x y img swapped Hw Hx) as (x1 & s1 & Hm & Hx1).
    cbn [times]. rewrite Hm. cbn [bind]. apply IH. exact Hx1.
Qed.

(** The ground never leaves a hole: with an image at least as wide as the
    step of 5, [move] never raises and, after any number of moves, the two
    copies are drawn side by side at the height of the ground, the left one
    starting at [x] with [-width <= x <= 0] and the other at [x + width]. *)
Theorem ground_covers (y : Z) (img : Surface) (n : nat) :
  Base.BASE_VELOCITY <= get_width img ->
  exists b x,
    times n Base.move (Base.new y img) = Ok b
    /\ - get_width img <= x <= 0
    /\ (Base.draw b = [(img, (x, y)); (img, (x + get_width img, y))]
        \/ Base.draw b = [(img, (x + get_width img, y)); (img, (x, y))]).
Proof.
  intros Hw.
  destruct (belt_steps n y img Hw 0 false) as (x & swapped & Hm & Hx).
  { unfold Base.BASE_VELOCITY in Hw. lia. }
  cbn [negb] in Hm. change (0 + get_width img) with (get_width img) in Hm.
  unfold Base.new. rewrite Hm.
  eexists _, x. split; [reflexivity|]. split; [exact Hx|].
  destruct swapped; [right | left]; reflexivity.
Qed.

(** The ground under an image 100 wide, after 30 frames. *)
Lemma ground_covers_witness :
  exists b, times 30 Base.move (Base.new Engine.BASE_POSITION_Y Scene.wide) = Ok b.
Proof.
  destruct (ground_covers Engine.BASE_POSITION_Y Scene.wide 30) as (b & x & Hm & _).
  - vm_compute. discriminate.
  - exists b. exact Hm.
Defined.

(** ** What the scans leave *)

Lemma survivors_keep {A : Type} (test : A -> bool) (l : list A) (x : A) :
  In x l -> test x = false -> In x (survivors test l).
Proof.
  intros Hin Hx.
  assert (H : forall n l, (length l <= n)%nat -> In x l -> In x (survivors test l));
    [|exact (H (length l) l (Nat.le_refl _) Hin)].
  clear l Hin. induction n as [|n IH]; intros l Hn Hin.
  - destruct l; [contradiction | simpl in Hn; lia].
  - destruct l as [|y rest]; [contradiction|]. simpl in Hn.
    cbn [survivors]. destruct (test y) eqn:Ey.
    + destruct Hin as [-> | Hin]; [congruence|].
      destruct rest as [|z rest']; [contradiction|].
      destruct Hin as [-> | Hin]; [left; reflexivity|].
      right. apply IH; [simpl in Hn; lia | exact Hin].
    + destruct Hin as [-> | Hin]; [left; reflexivity|].
      right. apply IH; [lia | exact Hin].
Qed.

Lemma loop_upto_beyond {S A : Type} (get : S -> list A)
    (body : nat -> A -> S -> outcome S) (n i : nat) (s : S) :
  (length (get s) <= i)%nat -> Engine.loop_upto get body n i s = Ok s.
Proof.
  intros H. destruct n as [|n]; simpl; [reflexivity|].
  rewrite (proj2 (lookup_ge_None (get s) i)) by exact H. reflexivity.
Qed.

Section Sieve.
Context {S A : Type} (get : S -> list A) (body : nat -> A -> S -> outcome S).
Context (test : A -> bool) (P : S -> Prop).
Hypothesis body_pops : forall i x s,
  P s -> get s !! i = Some x ->
  exists s', body i x s = Ok s' /\ P s'
             /\ get s' = if test x then delete i (get s) else get s.

Lemma loop_survivors (n : nat) :
  forall (rest done : list A) (s : S),
    P s -> get s = done ++ rest -> (length rest <= n)%nat ->
    exists s', Engine.loop_upto get body n (length done) s = Ok s' /\ P s'
               /\ get s' = done ++ survivors test rest.
Proof.
  induction n as [|n IH]; intros rest done s HP Hget Hn.
  - destruct rest; [|simpl in Hn; lia]. exists s. simpl. auto.
  - destruct rest as [|x rest].
    { exists s. rewrite loop_upto_beyond; [auto|].
      rewrite Hget, app_nil_r. lia. }
    assert (Hx : get s !! length done = Some x).
    { rewrite Hget. apply list_lookup_middle. reflexivity. }
    destruct (body_pops _ _ _ HP Hx) as (s1 & Hb & HP1 & Hget1).
    cbn [Engine.loop_upto]. rewrite Hx, Hb. cbn [bind].
    simpl in Hn. cbn [survivors]. destruct (test x).
    + rewrite Hget, delete_middle in Hget1.
      destruct rest as [|y rest'].
      * exists s1. rewrite loop_upto_beyond; [auto|].
        rewrite Hget1, app_nil_r. lia.
      * replace (Datatypes.S (length done)) with (length (done ++ [y]))
          by (rewrite length_app; simpl; lia).
        destruct (IH rest' (done ++ [y]) s1 HP1) as (s' & Hl & HP' & Hget').
        { rewrite Hget1, <- app_assoc. reflexivity. }
        { simpl in Hn. lia. }
        exists s'. rewrite Hget', <- app_assoc. auto.
    + replace (Datatypes.S (length done)) with (length (done ++ [x]))
        by (rewrite length_app; simpl; lia).
      destruct (IH rest (done ++ [x]) s1 HP1) as (s' & Hl & HP' & Hget').
      { rewrite Hget1, Hget, <- app_assoc. reflexivity. }
      { lia. }
      exists s'. rewrite Hget', <- app_assoc. auto.
Qed.
End Sieve.

Lemma check_border_pops (e0 : Engine.t) (i : nat) (bird : Bird.t) (e : Engine.t) :
  bordering e0 e -> Engine.birds e !! i = Some bird ->
  exists e', Engine.check_border i bird e = Ok e' /\ bordering e0 e'
             /\ Engine.birds e'
                = if Bird.hits_border bird then delete i (Engine.birds e) else Engine.birds e.
Proof.
  intros Hb Hi.
  destruct (check_border_bordering e0 i bird e Hb Hi) as (e' & He & Hb').
  exists e'. split; [exact He|]. split; [exact Hb'|].
  unfold Engine.check_border in He. destruct (Bird.hits_border bird).
  - apply remove_agent_Ok in He as (-> & _). reflexivity.
  - injection He as <-. reflexivity.
Qed.

(** The scan of the borders never raises on aligned lists and leaves the
    birds [survivors] tells: a bird is removed when it is examined and out of
    bounds, and the bird behind a removed one is not examined.  No bird that
    is within bounds is removed, the lists stay aligned, and no fitness, nor
    the score, nor a pipe changes. *)
Theorem border_scan_survivors (e : Engine.t) :
  aligned e ->
  exists e',
    Engine.scan_border e = Ok e'
    /\ Engine.birds e' = survivors Bird.hits_border (Engine.birds e)
    /\ (forall bird, In bird (Engine.birds e) -> Bird.hits_border bird = false ->
                     In bird (Engine.birds e'))
    /\ aligned e'
    /\ Engine.fitness e' = Engine.fitness e
    /\ Engine.score e' = Engine.score e
    /\ Engine.pipes e' = Engine.pipes e.
Proof.
  intros Ha. unfold Engine.scan_border, Engine.for_enumerate.
  destruct (loop_survivors Engine.birds Engine.check_border Bird.hits_border
              (bordering e) (check_border_pops e)
              (length (Engine.birds e)) (Engine.birds e) [] e)
    as (e' & Hl & (Ha' & Hf & Hs & Hp) & Hb).
  - split; [exact Ha | auto].
  - reflexivity.
  - lia.
  - exists e'. simpl in Hl, Hb. split; [exact Hl|]. split; [exact Hb|].
    split; [|auto]. intros bird Hin Hh. rewrite Hb. apply survivors_keep; assumption.
Qed.

(** Two birds of a new generation, both within bounds. *)
Lemma border_scan_survivors_witness :
  exists e',
    Engine.scan_border (Scene.state_of (fallers 0)) = Ok e'
    /\ length (Engine.birds e') = 2%nat.
Proof.
  destruct (border_scan_survivors (Scene.state_of (fallers 0))) as (e' & Hs & Hb & _).
  - apply aligned_computed; computed.
  - exists e'. split; [exact Hs|]. rewrite Hb. computed.
Defined.

Lemma In_delete_other {A : Type} (l : list A) (i : nat) (x y : A) :
  In x l -> l !! i = Some y -> x <> y -> In x (delete i l).
Proof.
  intros Hin Hi Hne. pose proof (delete_Permutation l i y Hi) as Hp.
  apply (Permutation_in _ Hp) in Hin. destruct Hin as [-> | Hin]; [congruence | exact Hin].
Qed.

Lemma is_collision_geometry (p p' : Pipe.t) (bird : Bird.t) :
  Pipe.position_x p' = Pipe.position_x p ->
  Pipe.mini_pipes p' = Pipe.mini_pipes p ->
  Pipe.position_y p' = Pipe.position_y p ->
  Pipe.is_collision p' bird = Pipe.is_collision p bird.
Proof. intros Hx Hm Hy. unfold Pipe.is_collision. rewrite Hx, Hm, Hy. reflexivity. Qed.

Lemma is_bird_passed_geometry (p : Pipe.t) (bird : Bird.t) :
  Pipe.position_x (fst (Pipe.is_bird_passed p bird)) = Pipe.position_x p
  /\ Pipe.mini_pipes (fst (Pipe.is_bird_passed p bird)) = Pipe.mini_pipes p
  /\ Pipe.position_y (fst (Pipe.is_bird_passed p bird)) = Pipe.position_y p
  /\ Pipe.height (fst (Pipe.is_bird_passed p bird)) = Pipe.height p.
Proof.
  unfold Pipe.is_bird_passed. simpl.
  destruct (Pipe.position_x p <? fst (Bird.position bird)); simpl; auto.
Qed.

Lemma collide_pops (e0 : Engine.t) (pipe0 : Pipe.t) (i : nat) (bird : Bird.t)
    (s : Engine.t * Pipe.t * bool) :
  striking e0 pipe0 s -> Engine.birds (fst (fst s)) !! i = Some bird ->
  exists s', Engine.collide i bird s = Ok s' /\ striking e0 pipe0 s'
             /\ Engine.birds (fst (fst s'))
                = if Pipe.is_collision pipe0 bird
                  then delete i (Engine.birds (fst (fst s)))
                  else Engine.birds (fst (fst s)).
Proof.
  destruct s as [[e pipe] create]. unfold striking. cbn [fst snd].
  intros (Ha & Hnd & Hsub & Hkeep & Hout & Hgone & Hx & Hm & Hy & Hsc & Hp) Hi.
  unfold Engine.collide.
  rewrite (is_collision_geometry pipe0 pipe bird Hx Hm Hy).
  set (e1 := Engine.log (Engine.IsCollision (Bird.agent bird)) e).
  assert (H1 : exists e2,
             (if Pipe.is_collision pipe0 bird then Engine.on_collision i e1 else Ok e1)
             = Ok e2
             /\ striking e0 pipe0 (e2, pipe, create)
             /\ Engine.birds e2
                = if Pipe.is_collision pipe0 bird
                  then delete i (Engine.birds e) else Engine.birds e).
  { unfold striking. cbn [fst snd]. destruct (Pipe.is_collision pipe0 bird).
    - destruct (on_collision_spec i e1 Ha) as
        (g & e2 & Hg & -> & Ef & Eb & En & Eg & Ep & Es & Ec & Ea).
      { apply lookup_lt_Some in Hi. exact Hi. }
      change (Engine.genomes e1) with (Engine.genomes e) in *.
      change (Engine.fitness e1) with (Engine.fitness e) in *.
      change (Engine.birds e1) with (Engine.birds e) in *.
      change (Engine.networks e1) with (Engine.networks e) in *.
      change (Engine.pipes e1) with (Engine.pipes e) in *.
      change (Engine.score e1) with (Engine.score e) in *.
      destruct (NoDup_delete_lookup _ _ _ Hnd Hg) as [Hnd2 Hni].
      assert (Hgin : In g (Engine.genomes e)).
      { apply list_elem_of_In. eapply list_elem_of_lookup_2. exact Hg. }
      exists e2. split; [reflexivity|]. split; [|exact Eb].
      split.
      { destruct Ha as [Hb Hn]. unfold aligned.
        rewrite Eb, En, Eg, !map_delete, Hb, Hn. auto. }
      split; [rewrite Eg; exact Hnd2|].
      split; [intros k Hk; rewrite Eg in Hk; apply Hsub; eapply In_delete, Hk|].
      split.
      { intros k Hk. rewrite Eg in Hk. rewrite Ef, assign_other.
        - apply Hkeep. eapply In_delete, Hk.
        - intros ->. contradiction. }
      split.
      { intros k Hk. rewrite Ef, assign_other; [apply Hout; exact Hk|].
        intros ->. apply Hk, Hsub, Hgin. }
      split.
      { intros k Hk0 Hk. rewrite Eg in Hk. rewrite Ef.
        destruct (Z.eq_dec k g) as [-> | Hne].
        - rewrite assign_same, Hkeep by exact Hgin. reflexivity.
        - rewrite assign_other by exact Hne. apply Hgone; [exact Hk0|].
          intros Hin. apply Hk. eapply In_delete_other; eauto. }
      rewrite Es, Ep. auto 10.
    - exists e1. split; [reflexivity|]. split; [|reflexivity].
      split; [exact Ha|]. split; [exact Hnd|]. auto 12. }
  destruct H1 as (e2 & -> & H2 & Hb2). cbn [bind].
  destruct (negb (Pipe.is_passed pipe)).
  - pose proof (is_bird_passed_geometry pipe bird) as (Gx & Gm & Gy & _).
    destruct (Pipe.is_bird_passed pipe bird) as [pipe' passed]. cbn [fst] in *.
    eexists. split; [reflexivity|]. cbn [fst snd]. split; [|exact Hb2].
    unfold striking in *. cbn [fst snd] in *.
    destruct H2 as (A1 & A2 & A3 & A4 & A5 & A6 & A7 & A8 & A9 & A10 & A11).
    split; [exact A1|]. split; [exact A2|]. split; [exact A3|]. split; [exact A4|].
    split; [exact A5|]. split; [exact A6|].
    split; [congruence|]. split; [congruence|]. split; [congruence|].
    split; [exact A10 | exact A11].
  - eexists. split; [reflexivity|]. split; [exact H2 | exact Hb2].
Qed.

(** The scan of the collisions with one pipe never raises on aligned lists
    of distinct genomes, and leaves the birds [survivors] tells: a bird is
    removed when it is examined and collides, and the bird behind a removed
    one is not examined.  Every genome removed loses exactly 1, no other
    fitness changes, no bird that does not collide is removed, and the
    lists stay aligned. *)
Theorem collision_scan_survivors (e : Engine.t) (pipe : Pipe.t) (create : bool) :
  aligned e -> NoDup (Engine.genomes e) ->
  exists e' pipe' create',
    Engine.scan_birds (e, pipe, create) = Ok (e', pipe', create')
    /\ Engine.birds e' = survivors (Pipe.is_collision pipe) (Engine.birds e)
    /\ (forall bird, In bird (Engine.birds e) -> Pipe.is_collision pipe bird = false ->
                     In bird (Engine.birds e'))
    /\ aligned e'
    /\ (forall g, In g (Engine.genomes e) -> ~ In g (Engine.genomes e') ->
          Engine.fitness e' g = (Engine.fitness e g - Engine.FITNESS_DECREASE)%Q)
    /\ (forall g, In g (Engine.genomes e') -> Engine.fitness e' g = Engine.fitness e g)
    /\ (forall g, ~ In g (Engine.genomes e) -> Engine.fitness e' g = Engine.fitness e g).
Proof.
  intros Ha Hnd. unfold Engine.scan_birds, Engine.for_enumerate. cbn [fst].
  destruct (loop_survivors (fun s : Engine.t * Pipe.t * bool => Engine.birds (fst (fst s)))
              Engine.collide (Pipe.is_collision pipe)
              (striking e pipe) (collide_pops e pipe)
              (length (Engine.birds e)) (Engine.birds e) [] (e, pipe, create))
    as ([[e' pipe'] create'] & Hl & HP & Hb).
  - unfold striking. cbn [fst snd]. split; [exact Ha|]. split; [exact Hnd|].
    split; [auto|]. split; [auto|]. split; [auto|].
    split; [intros g H1 H2; contradiction | auto 10].
  - reflexivity.
  - lia.
  - unfold striking in HP. cbn [fst snd] in HP, Hb, Hl.
    destruct HP as (Ha' & _ & _ & Hkeep & Hout & Hgone & _).
    exists e', pipe', create'. split; [exact Hl|]. split; [exact Hb|].
    split; [|auto 10]. intros bird Hin Hc. rewrite Hb.
    apply survivors_keep; assumption.
Qed.

(** The three birds of the flock at the pipe. *)
Lemma collision_scan_survivors_witness :
  exists e' pipe' create',
    Engine.scan_birds
      (Scene.state_of (Scene.then_emulate (flock 86)),
       hd (Pipe.new 0 Scene.trunk 0)
          (Engine.pipes (Scene.state_of (Scene.then_emulate (flock 86)))),
       false)
    = Ok (e', pipe', create')
    /\ map Bird.agent (Engine.birds e') = [2].
Proof.
  destruct (collision_scan_survivors
              (Scene.state_of (Scene.then_emulate (flock 86)))
              (hd (Pipe.new 0 Scene.trunk 0)
                 (Engine.pipes (Scene.state_of (Scene.then_emulate (flock 86)))))
              false)
    as (e' & pipe' & create' & Hs & Hb & _).
  - apply aligned_computed; computed.
  - distinct_keys.
  - exists e', pipe', create'. split; [exact Hs|]. rewrite Hb. computed.
Defined.

(** ** The reward of a frame lived *)






(** ** The setting up of a generation *)

Lemma add_agents_spec (brain : Z -> Q * Q * Q -> Q) (imgs : list Surface)
    (img0 : Surface) :
  imgs !! 0%nat = Some img0 ->
  forall (batch : list Z) (e : Engine.t),
    exists e',
      Engine.add_agents brain imgs batch e = Ok e'
      /\ Engine.birds e'
         = Engine.birds e
           ++ map (fun g => Bird.mk g (Engine.BIRD_POSITION_X,
                                       inject_Z Engine.BIRD_POSITION_Y)
                                    0 0 (inject_Z Engine.BIRD_POSITION_Y) 0 0 imgs img0)
                  batch
      /\ Engine.networks e'
         = Engine.networks e ++ map (fun g => Engine.mkNetwork g (brain g)) batch
      /\ Engine.genomes e' = Engine.genomes e ++ batch
      /\ (forall g, In g batch -> Engine.fitness e' g = 0%Q)
      /\ (forall g, ~ In g batch -> Engine.fitness e' g = Engine.fitness e g)
      /\ Engine.pipes e' = Engine.pipes e
      /\ Engine.score e' = Engine.score e
      /\ Engine.assets e' = Engine.assets e.
Proof.
  intros Himg. induction batch as [|k batch IH]; intros e.
  - exists e. simpl. rewrite !app_nil_r. split; [reflexivity|].
    split; [reflexivity|]. split; [reflexivity|]. split; [reflexivity|].
    split; [contradiction | auto].
  - cbn [Engine.add_agents]. unfold Engine.add_agent, Bird.new, getitem.
    rewrite Himg. cbn [bind].
    match goal with |- context [Engine.add_agents _ _ _ ?x] => set (e1 := x) end.
    destruct (IH e1) as (e' & -> & Eb & En & Eg & Hin & Hout & Ep & Es & Ea).
    exists e'. split; [reflexivity|].
    unfold e1 in *. simpl in *.
    rewrite Eb, En, Eg, <- !app_assoc. simpl.
    split; [reflexivity|]. split; [reflexivity|]. split; [reflexivity|].
    split.
    { intros g [<- | Hg].
      - destruct (in_dec Z.eq_dec k batch) as [Hk | Hk]; [apply Hin; exact Hk|].
        rewrite Hout by exact Hk. apply assign_same.
      - apply Hin. exact Hg. }
    split; [|auto].
    intros g Hg. rewrite Hout by tauto. apply assign_other. intros ->. tauto.
Qed.

Lemma add_agents_no_image (brain : Z -> Q * Q * Q -> Q) (batch : list Z)
    (e : Engine.t) :
  batch <> [] -> Engine.add_agents brain [] batch e = Raise IndexError.
Proof. destruct batch as [|k batch]; [congruence | reflexivity]. Qed.

Lemma lookup_head {A : Type} (l : list A) :
  (l = [] /\ l !! 0%nat = None) \/ (exists x, l <> [] /\ l !! 0%nat = Some x).
Proof.
  destruct l as [|x l]; [left; auto|].
  right. exists x. split; [discriminate | reflexivity].
Qed.

(** [run_ne] up to its loop returns when a pipe image, a base image and a
    background are loaded and, if there is a genome, a bird image.  Then the
    score is 0, the pipes are one new pipe at 650, and for every genome, in
    order, a bird at (220, 350) with all the bird images, a network and the
    genome are put behind those already in the lists; the fitness of the
    genomes of the generation is 0 and no other changes. *)
Theorem generation_set_up (brain : Z -> Q * Q * Q -> Q) (batch : list Z)
    (drawn : Z) (e : Engine.t) (pipe_image bird_image : Surface) :
  Engine.get_assets e Engine.PIPE_IMAGE !! 0%nat = Some pipe_image ->
  Engine.get_assets e Engine.BASE_IMAGE <> [] ->
  Engine.get_assets e Engine.BACKGROUND_IMAGE <> [] ->
  Engine.get_assets e Engine.BIRD_IMAGE !! 0%nat = Some bird_image ->
  exists e',
    Engine.setup brain batch drawn e = Ok e'
    /\ Engine.score e' = 0
    /\ Engine.pipes e' = [Pipe.new Engine.PIPE_POSITION_X pipe_image drawn]
    /\ Engine.birds e'
       = Engine.birds e
         ++ map (fun g => Bird.mk g (Engine.BIRD_POSITION_X,
                                     inject_Z Engine.BIRD_POSITION_Y)
                                  0 0 (inject_Z Engine.BIRD_POSITION_Y) 0 0
                                  (Engine.get_assets e Engine.BIRD_IMAGE) bird_image)
                batch
    /\ map Engine.net_agent (Engine.networks e')
       = map Engine.net_agent (Engine.networks e) ++ batch
    /\ Engine.genomes e' = Engine.genomes e ++ batch
    /\ (forall g, In g batch -> Engine.fitness e' g = 0%Q)
    /\ (forall g, ~ In g batch -> Engine.fitness e' g = Engine.fitness e g)
    /\ Engine.assets e' = Engine.assets e.
Proof.
  intros Hpipe Hbase Hbg Hbird. unfold Engine.setup.
  change (Engine.get_assets (Engine.set_score 0 e)) with (Engine.get_assets e).
  unfold getitem. rewrite Hpipe. cbn [bind].
  destruct (lookup_head (Engine.get_assets e Engine.BASE_IMAGE)) as [[H _]|(x & _ & ->)];
    [contradiction|].
  destruct (lookup_head (Engine.get_assets e Engine.BACKGROUND_IMAGE))
    as [[H _]|(y & _ & ->)]; [contradiction|].
  cbn [bind].
  destruct (add_agents_spec brain _ _ Hbird batch (Engine.set_score 0 e))
    as (e' & -> & Eb & En & Eg & Hin & Hout & Ep & Es & Ea).
  eexists. split; [reflexivity|]. simpl in *.
  rewrite Es, Eb, En, Eg, Ea, map_app, map_map, map_id.
  auto 10.
Qed.

(** [run_ne] raises, an [IndexError], exactly when no pipe image, no base
    image or no background is loaded, or there is a genome and no bird
    image. *)
Theorem generation_needs_assets (brain : Z -> Q * Q * Q -> Q) (batch : list Z)
    (drawn : Z) (e : Engine.t) :
  (Engine.setup brain batch drawn e = Raise IndexError
   <-> Engine.get_assets e Engine.PIPE_IMAGE = []
       \/ Engine.get_assets e Engine.BASE_IMAGE = []
       \/ Engine.get_assets e Engine.BACKGROUND_IMAGE = []
       \/ (batch <> [] /\ Engine.get_assets e Engine.BIRD_IMAGE = []))
  /\ Engine.setup brain batch drawn e <> Raise ZeroDivisionError.
Proof.
  unfold Engine.setup.
  change (Engine.get_assets (Engine.set_score 0 e)) with (Engine.get_assets e).
  unfold getitem.
  destruct (lookup_head (Engine.get_assets e Engine.PIPE_IMAGE))
    as [[Hp ->]|(p & Hp & ->)]; cbn [bind].
  { split; [split; auto | discriminate]. }
  destruct (lookup_head (Engine.get_assets e Engine.BASE_IMAGE))
    as [[Hb ->]|(b & Hb & ->)]; cbn [bind].
  { split; [split; auto | discriminate]. }
  destruct (lookup_head (Engine.get_assets e Engine.BACKGROUND_IMAGE))
    as [[Hg ->]|(g & Hg & ->)]; cbn [bind].
  { split; [split; auto | discriminate]. }
  destruct (lookup_head (Engine.get_assets e Engine.BIRD_IMAGE))
    as [[Hi _]|(i & Hi & Hi0)].
  - rewrite Hi. destruct batch as [|k batch].
    + simpl. split; [|discriminate].
      split; [discriminate | intros [H|[H|[H|[H _]]]]; congruence].
    + rewrite add_agents_no_image by discriminate. cbn [bind].
      split; [|discriminate]. split; [intros _|reflexivity].
      right. right. right. split; [discriminate | reflexivity].
  - destruct (add_agents_spec brain _ _ Hi0 batch (Engine.set_score 0 e))
      as (e' & -> & _).
    cbn [bind]. split; [|discriminate].
    split; [discriminate | intros [H|[H|[H|[_ H]]]]; congruence].
Qed.

(** The engine of [main.py], three bird images loaded, and two genomes. *)
Lemma generation_set_up_witness :
  exists e',
    Engine.setup Scene.never [1; 2] 50
      (Main.game_engine Scene.dot Scene.tall Scene.wide Scene.dot Scene.dot Scene.slit)
    = Ok e'
    /\ map Bird.image (Engine.birds e') = [Scene.dot; Scene.dot]
    /\ Engine.genomes e' = [1; 2].
Proof.
  destruct (generation_set_up Scene.never [1; 2] 50
              (Main.game_engine Scene.dot Scene.tall Scene.wide
                                Scene.dot Scene.dot Scene.slit)
              Scene.slit Scene.dot)
    as (e' & He & _ & _ & Hb & _ & Hg & _).
  - reflexivity.
  - discriminate.
  - discriminate.
  - reflexivity.
  - exists e'. split; [exact He|]. rewrite Hb, Hg. split; reflexivity.
Defined.

(** ** A generation never raises *)

Lemma survivors_sub {A : Type} (test : A -> bool) (l : list A) (x : A) :
  In x (survivors test l) -> In x l.
Proof.
  assert (H : forall n l, (length l <= n)%nat -> In x (survivors test l) -> In x l);
    [|exact (H (length l) l (Nat.le_refl _))].
  clear l. induction n as [|n IH]; intros l Hn Hin.
  - destruct l; [contradiction | simpl in Hn; lia].
  - destruct l as [|y rest]; [contradiction|]. simpl in Hn.
    cbn [survivors] in Hin. destruct (test y).
    + destruct rest as [|z rest']; [contradiction|].
      destruct Hin as [-> | Hin]; [right; left; reflexivity|].
      right. right. apply IH; [simpl in Hn; lia | exact Hin].
    + destruct Hin as [-> | Hin]; [left; reflexivity|].
      right. apply IH; [lia | exact Hin].
Qed.

Lemma get_assets_same (e e' : Engine.t) (ty : Engine.AssetType) :
  Engine.assets e' = Engine.assets e ->
  Engine.get_assets e' ty = Engine.get_assets e ty.
Proof. unfold Engine.get_assets. intros ->. reflexivity. Qed.

Lemma ready_same (e e' : Engine.t) :
  ready e -> aligned e' -> Forall placed (Engine.birds e') ->
  Engine.assets e' = Engine.assets e -> ready e'.
Proof.
  intros (_ & _ & Hp & Hb & Hg & Hi) Ha Hpl Has. unfold ready.
  rewrite !(get_assets_same e e') by exact Has. auto 10.
Qed.

Lemma placed_lookup (bs : list Bird.t) (i : nat) (b : Bird.t) :
  Forall placed bs -> bs !! i = Some b -> placed b.
Proof. intros H Hi. eapply Forall_lookup_1; eauto. Qed.

Lemma emulate_bird_keeps (e0 : Engine.t) (current i : nat) (bird : Bird.t)
    (e e' : Engine.t) :
  aligned e /\ Forall placed (Engine.birds e)
  /\ Engine.assets e = Engine.assets e0 /\ Engine.pipes e = Engine.pipes e0
  /\ length (Engine.birds e) = length (Engine.birds e0) ->
  Engine.birds e !! i = Some bird ->
  Engine.emulate_bird current i bird e = Ok e' ->
  aligned e' /\ Forall placed (Engine.birds e')
  /\ Engine.assets e' = Engine.assets e0 /\ Engine.pipes e' = Engine.pipes e0
  /\ length (Engine.birds e') = length (Engine.birds e0).
Proof.
  intros (Ha & Hpl & Has & Hp & Hlen) Hi H.
  split; [eapply emulate_bird_aligned; eauto|].
  pose proof (placed_lookup _ _ _ Hpl Hi) as [Hx Him].
  unfold Engine.emulate_bird in H.
  apply bind_Ok in H as (g & _ & H). apply bind_Ok in H as (net & _ & H).
  apply bind_Ok in H as (pipe & _ & H).
  destruct (Qltb _ _); injection H as <-; simpl;
    rewrite ?list_insert_insert_eq, length_insert;
    (split; [apply Forall_insert; [exact Hpl | split; assumption] | auto]).
Qed.

Lemma emulate_birds_running (e : Engine.t) :
  running e -> Engine.birds e <> [] ->
  exists e', Engine.emulate_birds e = Ok e' /\ running e' /\ Engine.birds e' <> [].
Proof.
  intros [Hr Hlast] Hne. pose proof Hr as (Ha & Hpl & _).
  destruct Hlast as [Hnil | (ps & p & Hps & Hpass & Hw)]; [contradiction|].
  assert (Hpipe : exists pipe,
             Engine.pipes e !! Engine.current_pipe_index e = Some pipe).
  { apply lookup_lt_is_Some_2.
    destruct (current_pipe_index_spec e) as [H1 [H0 | H0]]; rewrite H0.
    - rewrite Hps, length_app. simpl. lia.
    - apply H1 in H0 as (_ & _ & _ & _ & H & _). exact H. }
  destruct Hpipe as [pipe Hpipe].
  destruct (emulate_birds_spec e pipe Ha Hpipe) as (e' & He & _).
  exists e'. split; [exact He|].
  unfold Engine.emulate_birds, Engine.for_enumerate in He.
  destruct (loop_upto_invariant Engine.birds _ _
              (emulate_bird_keeps e (Engine.current_pipe_index e))
              _ _ _ _ (conj Ha (conj Hpl (conj eq_refl (conj eq_refl eq_refl)))) He)
    as (Ha' & Hpl' & Has' & Hp' & Hlen').
  split.
  - split; [eapply ready_same; eauto|].
    right. exists ps, p. rewrite Hp'. auto.
  - intros Hnil. rewrite Hnil in Hlen'. destruct (Engine.birds e); [congruence | discriminate].
Qed.

Lemma is_bird_passed_flags (pipe : Pipe.t) (bird : Bird.t) :
  Pipe.is_passed pipe = false ->
  fst (Bird.position bird) = Engine.BIRD_POSITION_X ->
  (snd (Pipe.is_bird_passed pipe bird) = true
   /\ Pipe.is_passed (fst (Pipe.is_bird_passed pipe bird)) = true)
  \/ (snd (Pipe.is_bird_passed pipe bird) = false
      /\ Pipe.is_passed (fst (Pipe.is_bird_passed pipe bird)) = false
      /\ Engine.BIRD_POSITION_X <= Pipe.position_x pipe).
Proof.
  intros Hp Hx. unfold Pipe.is_bird_passed. rewrite Hx.
  destruct (Z.ltb_spec (Pipe.position_x pipe) Engine.BIRD_POSITION_X) as [Hlt | Hge];
    simpl.
  - left. auto.
  - right. rewrite Hp. auto.
Qed.

Lemma outline_eq (p p' : Pipe.t) :
  outline p' = outline p ->
  Pipe.position_x p' = Pipe.position_x p /\ Pipe.mini_pipes p' = Pipe.mini_pipes p
  /\ Pipe.position_y p' = Pipe.position_y p /\ Pipe.height p' = Pipe.height p.
Proof. unfold outline. intros [= -> -> -> ->]. auto. Qed.

Lemma outline_is_bird_passed (p : Pipe.t) (bird : Bird.t) :
  outline (fst (Pipe.is_bird_passed p bird)) = outline p.
Proof.
  unfold Pipe.is_bird_passed. simpl.
  destruct (Pipe.position_x p <? fst (Bird.position bird)); reflexivity.
Qed.

Lemma collide_keeping (e0 : Engine.t) (pipe0 : Pipe.t) (i : nat) (bird : Bird.t)
    (s : Engine.t * Pipe.t * bool) :
  keeping e0 pipe0 s -> Engine.birds (fst (fst s)) !! i = Some bird ->
  exists s', Engine.collide i bird s = Ok s' /\ keeping e0 pipe0 s'
             /\ (Pipe.is_passed (snd (fst s)) = false \/ settled s -> settled s').
Proof.
  destruct s as [[e pipe] create]. unfold keeping, settled. cbn [fst snd].
  intros (Ha & Hpl & Has & Hsc & Ho) Hi.
  pose proof (placed_lookup _ _ _ Hpl Hi) as [Hbx _].
  unfold Engine.collide.
  set (e1 := Engine.log (Engine.IsCollision (Bird.agent bird)) e).
  assert (H1 : exists e2,
             (if Pipe.is_collision pipe bird then Engine.on_collision i e1 else Ok e1)
             = Ok e2
             /\ aligned e2 /\ Forall placed (Engine.birds e2)
             /\ Engine.assets e2 = Engine.assets e0
             /\ Engine.score e2 = Engine.score e0).
  { destruct (Pipe.is_collision pipe bird).
    - destruct (on_collision_spec i e1 Ha) as
        (g & e2 & Hg & -> & Ef & Eb & En & Eg & Ep & Es & Ec & Ea).
      { apply lookup_lt_Some in Hi. exact Hi. }
      exists e2. split; [reflexivity|]. split.
      { destruct Ha as [Hb Hn]. unfold aligned.
        rewrite Eb, En, Eg. simpl. rewrite !map_delete, Hb, Hn. auto. }
      split; [rewrite Eb; apply Forall_delete; exact Hpl|].
      rewrite Ea, Es. auto.
    - exists e1. split; [reflexivity|]. auto. }
  destruct H1 as (e2 & -> & Ha2 & Hpl2 & Has2 & Hsc2). cbn [bind].
  destruct (Pipe.is_passed pipe) eqn:Hpass; cbn [negb].
  - eexists. split; [reflexivity|]. cbn [fst snd].
    split; [auto 10|]. intros [H | H]; [discriminate | rewrite Hpass; exact H].
  - pose proof (outline_is_bird_passed pipe bird) as Go.
    pose proof (is_bird_passed_flags pipe bird Hpass Hbx) as Hflags.
    destruct (Pipe.is_bird_passed pipe bird) as [pipe' passed]. cbn [fst snd] in *.
    eexists. split; [reflexivity|]. cbn [fst snd].
    split; [split; [exact Ha2|]; split; [exact Hpl2|]; split; [exact Has2|];
            split; [exact Hsc2 | rewrite Go; exact Ho]|].
    intros _. destruct Hflags as [[-> Hp'] | (-> & Hp' & Hge)].
    + left. auto.
    + right. apply outline_eq in Go as (-> & _). auto.
Qed.

Lemma scan_birds_keeping (e0 : Engine.t) (pipe0 : Pipe.t)
    (s : Engine.t * Pipe.t * bool) :
  keeping e0 pipe0 s ->
  exists s', Engine.scan_birds s = Ok s' /\ keeping e0 pipe0 s'.
Proof.
  intros H. unfold Engine.scan_birds, Engine.for_enumerate.
  apply (loop_upto_total _ Engine.collide (keeping e0 pipe0)); [|exact H].
  intros i x s1 HP Hx.
  destruct (collide_keeping e0 pipe0 i x s1 HP Hx) as (s2 & Hc & HP2 & _). eauto.
Qed.

Lemma scan_birds_settled (e0 : Engine.t) (pipe0 : Pipe.t)
    (s : Engine.t * Pipe.t * bool) :
  keeping e0 pipe0 s -> Pipe.is_passed (snd (fst s)) = false ->
  Engine.birds (fst (fst s)) <> [] ->
  exists s', Engine.scan_birds s = Ok s' /\ keeping e0 pipe0 s' /\ settled s'.
Proof.
  intros H Hpass Hne. unfold Engine.scan_birds, Engine.for_enumerate.
  destruct (Engine.birds (fst (fst s))) as [|b0 bs] eqn:Eb; [contradiction|].
  cbn [length Engine.loop_upto]. rewrite Eb. cbn [lookup list_lookup].
  destruct (collide_keeping e0 pipe0 0 b0 s H) as (s1 & -> & H1 & Hs1).
  { rewrite Eb. reflexivity. }
  cbn [bind].
  destruct (loop_upto_total (fun s : Engine.t * Pipe.t * bool => Engine.birds (fst (fst s)))
              Engine.collide (fun s => keeping e0 pipe0 s /\ settled s))
    with (n := length bs) (i := 1%nat) (s := s1) as (s' & Hl & HP & Hs').
  - intros i x s2 [HP Hs2] Hx.
    destruct (collide_keeping e0 pipe0 i x s2 HP Hx) as (s3 & Hc & HP3 & Hs3).
    exists s3. split; [exact Hc|]. split; [exact HP3 | apply Hs3; right; exact Hs2].
  - split; [exact H1 | apply Hs1; left; exact Hpass].
  - exists s'. auto.
Qed.

Lemma scan_birds_empty (e : Engine.t) (pipe : Pipe.t) (create : bool) :
  Engine.birds e = [] -> Engine.scan_birds (e, pipe, create) = Ok (e, pipe, create).
Proof.
  intros H. unfold Engine.scan_birds, Engine.for_enumerate. cbn [fst]. rewrite H.
  reflexivity.
Qed.

Lemma scan_pipes_keeping (e0 : Engine.t) (ps : list Pipe.t) :
  forall (e : Engine.t) (create : bool),
    aligned e -> Forall placed (Engine.birds e) ->
    Engine.assets e = Engine.assets e0 -> Engine.score e = Engine.score e0 ->
    exists marked e' create',
      Engine.scan_pipes ps e create = Ok (marked, e', create')
      /\ aligned e' /\ Forall placed (Engine.birds e')
      /\ Engine.assets e' = Engine.assets e0
      /\ Engine.score e' = Engine.score e0
      /\ map (fun m => (outline (fst m), snd m)) marked
         = map (fun p => (outline (Pipe.move p), Pipe.is_window_passed p)) ps.
Proof.
  induction ps as [|q ps IH]; intros e create Ha Hpl Has Hsc.
  - exists [], e, create. auto 10.
  - cbn [Engine.scan_pipes].
    destruct (scan_birds_keeping e0 q (e, q, create)) as ([[e1 q1] c1] & -> & H1).
    { unfold keeping. cbn [fst snd]. auto 10. }
    destruct H1 as (Ha1 & Hpl1 & Has1 & Hsc1 & Ho1). cbn [fst snd bind] in *.
    destruct (IH e1 c1 Ha1 Hpl1 Has1 Hsc1)
      as (marked & e' & create' & -> & Ha' & Hpl' & Has' & Hsc' & Hm).
    cbn [bind]. eexists _, _, _. split; [reflexivity|].
    split; [exact Ha'|]. split; [exact Hpl'|]. split; [exact Has'|].
    split; [exact Hsc'|]. cbn [map fst snd]. rewrite Hm. f_equal.
    apply outline_eq in Ho1 as (Ex & Em & Ey & Eh).
    unfold outline, Pipe.is_window_passed. simpl. rewrite Ex, Em, Ey, Eh. reflexivity.
Qed.

Lemma scan_pipes_last (e0 : Engine.t) (p : Pipe.t) (ps : list Pipe.t) :
  Pipe.is_passed p = false -> 0 <= get_width (fst (Pipe.mini_pipes p)) ->
  forall (e : Engine.t) (create : bool),
    aligned e -> Forall placed (Engine.birds e) ->
    Engine.assets e = Engine.assets e0 -> Engine.score e = Engine.score e0 ->
    exists marked e' create',
      Engine.scan_pipes (ps ++ [p]) e create = Ok (marked, e', create')
      /\ (Engine.birds e' = []
          \/ exists marked0 p' (mark : bool),
               marked = marked0 ++ [(p', mark)]
               /\ (create' = true
                   \/ (mark = false /\ Pipe.is_passed p' = false
                       /\ 0 <= get_width (fst (Pipe.mini_pipes p'))))).
Proof.
  intros Hpass Hw. induction ps as [|q ps IH]; intros e create Ha Hpl Has Hsc.
  - cbn [app Engine.scan_pipes].
    destruct (Engine.birds e) as [|b0 bs] eqn:Eb.
    + rewrite scan_birds_empty by exact Eb. cbn [bind].
      eexists _, _, _. split; [reflexivity|]. left. exact Eb.
    + destruct (scan_birds_settled e0 p (e, p, create)) as ([[e1 p1] c1] & -> & H1 & Hs).
      { unfold keeping. cbn [fst snd]. rewrite Eb. auto 10. }
      { exact Hpass. }
      { cbn [fst]. rewrite Eb. discriminate. }
      destruct H1 as (Ha1 & Hpl1 & Has1 & Hsc1 & Ho1). unfold settled in Hs.
      apply outline_eq in Ho1 as (Ex1 & Em1 & _).
      cbn [fst snd bind] in *.
      eexists _, _, _. split; [reflexivity|].
      right. exists [], (Pipe.move p1), (Pipe.is_window_passed p1).
      split; [reflexivity|].
      destruct Hs as [[_ Hc] | [Hp1 Hge]]; [left; exact Hc|].
      right. unfold Pipe.is_window_passed. simpl. rewrite Em1.
      split; [|auto]. apply Z.ltb_ge. unfold Engine.BIRD_POSITION_X in Hge. lia.
  - cbn [app Engine.scan_pipes].
    destruct (scan_birds_keeping e0 q (e, q, create)) as ([[e1 q1] c1] & -> & H1).
    { unfold keeping. cbn [fst snd]. auto 10. }
    destruct H1 as (Ha1 & Hpl1 & Has1 & Hsc1 & _). cbn [fst snd bind] in *.
    destruct (IH e1 c1 Ha1 Hpl1 Has1 Hsc1) as (marked & e' & create' & -> & Hlast).
    cbn [bind]. eexists _, _, _. split; [reflexivity|].
    destruct Hlast as [Hnil | (marked0 & p' & mark & -> & H)]; [left; exact Hnil|].
    right. exists ((Pipe.move q1, Pipe.is_window_passed q1) :: marked0), p', mark.
    split; [reflexivity | exact H].
Qed.

Lemma check_border_keeps (e0 : Engine.t) (i : nat) (bird : Bird.t) (e : Engine.t) :
  bordering e0 e /\ Engine.assets e = Engine.assets e0 ->
  Engine.birds e !! i = Some bird ->
  exists e', Engine.check_border i bird e = Ok e'
             /\ (bordering e0 e' /\ Engine.assets e' = Engine.assets e0)
             /\ Engine.birds e'
                = if Bird.hits_border bird then delete i (Engine.birds e) else Engine.birds e.
Proof.
  intros [Hb Has] Hi.
  destruct (check_border_pops e0 i bird e Hb Hi) as (e' & He & Hb' & Hbirds).
  exists e'. split; [exact He|]. split; [|exact Hbirds]. split; [exact Hb'|].
  unfold Engine.check_border in He. destruct (Bird.hits_border bird).
  - apply remove_agent_Ok in He as (_ & _ & _ & _ & _ & _ & _ & ->). exact Has.
  - injection He as <-. exact Has.
Qed.

Lemma scan_border_keeps (e : Engine.t) :
  aligned e -> Forall placed (Engine.birds e) ->
  exists e',
    Engine.scan_border e = Ok e'
    /\ aligned e' /\ Forall placed (Engine.birds e')
    /\ Engine.assets e' = Engine.assets e
    /\ Engine.pipes e' = Engine.pipes e
    /\ Engine.score e' = Engine.score e
    /\ (Engine.birds e = [] -> Engine.birds e' = []).
Proof.
  intros Ha Hpl. unfold Engine.scan_border, Engine.for_enumerate.
  destruct (loop_survivors Engine.birds Engine.check_border Bird.hits_border
              (fun s => bordering e s /\ Engine.assets s = Engine.assets e)
              (check_border_keeps e)
              (length (Engine.birds e)) (Engine.birds e) [] e)
    as (e' & Hl & ((Ha' & _ & Hs & Hp) & Has) & Hb).
  - split; [split; [exact Ha | auto] | reflexivity].
  - reflexivity.
  - lia.
  - exists e'. simpl in Hl, Hb. split; [exact Hl|]. split; [exact Ha'|].
    split.
    { rewrite Hb. apply Forall_forall. intros b Hin.
      apply list_elem_of_In, survivors_sub in Hin.
      rewrite Forall_forall in Hpl. apply Hpl, list_elem_of_In, Hin. }
    split; [exact Has|]. split; [exact Hp|]. split; [exact Hs|].
    intros Hnil. rewrite Hb, Hnil. reflexivity.
Qed.

Lemma draw_placed (b : Bird.t) :
  placed b ->
  exists b', Bird.draw b = Ok b' /\ placed b' /\ Bird.agent b' = Bird.agent b.
Proof.
  intros [Hx Him]. unfold Bird.draw.
  destruct (Bird.images b) as [|i0 imgs] eqn:E; [contradiction|].
  set (len := Z.of_nat (length (i0 :: imgs))).
  assert (Hlen : 0 < len) by (unfold len; simpl; lia).
  pose proof (Z.mod_pos_bound (Bird.animation_frame b + 1) len Hlen) as Hr.
  destruct (lookup_lt_is_Some_2 (i0 :: imgs)
              (Z.to_nat ((Bird.animation_frame b + 1) mod len))) as [img Himg].
  { unfold len in *. lia. }
  unfold getitem. rewrite Himg. cbn [bind]. eexists. split; [reflexivity|].
  split; [|reflexivity]. split; [exact Hx | simpl; discriminate].
Qed.

Lemma draw_birds_placed (bs : list Bird.t) :
  Forall placed bs ->
  exists bs', Engine.draw_birds bs = Ok bs' /\ Forall placed bs'
              /\ (bs = [] -> bs' = []).
Proof.
  induction 1 as [|b bs Hb Hbs IH].
  - exists []. auto.
  - destruct (draw_placed b Hb) as (b' & Hd & Hb' & _).
    destruct IH as (bs' & Hds & Hbs' & _).
    cbn [Engine.draw_birds]. rewrite Hd. cbn [bind]. rewrite Hds. cbn [bind].
    exists (b' :: bs'). split; [reflexivity|]. split; [constructor; assumption|].
    discriminate.
Qed.

Lemma draw_window_running (e : Engine.t) :
  running e -> exists e', Engine.draw_window e = Ok e' /\ running e'.
Proof.
  intros [Hr Hlast]. pose proof Hr as (Ha & Hpl & _).
  destruct (draw_birds_placed _ Hpl) as (bs & Hd & Hbs & Hnil).
  assert (He : Engine.draw_window e = Ok (Engine.set_birds bs e)).
  { unfold Engine.draw_window. rewrite Hd. reflexivity. }
  exists (Engine.set_birds bs e). split; [exact He|]. split.
  - eapply ready_same; [exact Hr | | exact Hbs | reflexivity].
    eapply draw_window_aligned; eauto.
  - destruct Hlast as [H | H]; [left; apply Hnil, H | right; exact H].
Qed.

Lemma filter_unmarked_last (marked : list (Pipe.t * bool)) (p : Pipe.t) :
  map fst (List.filter (fun q => negb (snd q)) (marked ++ [(p, false)]))
  = map fst (List.filter (fun q => negb (snd q)) marked) ++ [p].
Proof. rewrite List.filter_app, map_app. reflexivity. Qed.

Lemma filter_unmarked (ps : list Pipe.t) :
  forall marked : list (Pipe.t * bool),
    map (fun m => (outline (fst m), snd m)) marked
    = map (fun p => (outline (Pipe.move p), Pipe.is_window_passed p)) ps ->
    map outline (map fst (List.filter (fun q => negb (snd q)) marked))
    = map outline
        (map Pipe.move (List.filter (fun p => negb (Pipe.is_window_passed p)) ps)).
Proof.
  induction ps as [|p ps IH]; intros [|[q mark] marked] H; try discriminate.
  - reflexivity.
  - cbn [map fst snd] in H.
    remember (outline q) as oq eqn:Eq. remember (outline (Pipe.move p)) as op eqn:Ep.
    injection H as Ho Hmark Hrest. subst mark oq op.
    cbn [List.filter snd].
    destruct (Pipe.is_window_passed p); cbn [negb map fst];
      [|rewrite Ho; f_equal]; apply IH, Hrest.
Qed.

Lemma move_pipes_spec (drawn : Z) (e : Engine.t) :
  running e -> Engine.birds e <> [] ->
  exists e' tail,
    Engine.move_pipes drawn e = Ok e'
    /\ running e'
    /\ map outline (Engine.pipes e')
       = map outline
           (map Pipe.move
                (List.filter (fun p => negb (Pipe.is_window_passed p)) (Engine.pipes e)))
         ++ map outline tail
    /\ (tail = []
        \/ exists img, Engine.get_assets e Engine.PIPE_IMAGE !! 0%nat = Some img
                       /\ tail = [Pipe.new Engine.PIPE_POSITION_X img drawn])
    /\ Engine.score e' = Engine.score e + Z.of_nat (length tail).
Proof.
  intros [Hr Hlast] Hne. pose proof Hr as (Ha & Hpl & (img & Himg & Hwimg) & _).
  destruct Hlast as [Hnil | (ps & p & Hps & Hpass & Hw)]; [contradiction|].
  unfold Engine.move_pipes.
  destruct (scan_pipes_keeping e (Engine.pipes e) e false Ha Hpl eq_refl eq_refl)
    as (marked & e1 & create & Hscan & Ha1 & Hpl1 & Has1 & Hsc1 & Hmarks).
  destruct (scan_pipes_last e p ps Hpass Hw e false Ha Hpl eq_refl eq_refl)
    as (marked' & e1' & create' & Hscan' & Hlast).
  rewrite <- Hps, Hscan in Hscan'. injection Hscan' as <- <- <-.
  rewrite Hscan. cbn [bind]. apply filter_unmarked in Hmarks.
  assert (H2 : exists marked2 e2 tail,
             (if create then Engine.on_pass drawn marked e1 else Ok (marked, e1))
             = Ok (marked2, e2)
             /\ aligned e2 /\ Forall placed (Engine.birds e2)
             /\ Engine.assets e2 = Engine.assets e
             /\ Engine.birds e2 = Engine.birds e1
             /\ (Engine.birds e1 = []
                 \/ exists marked0 p',
                      marked2 = marked0 ++ [(p', false)]
                      /\ Pipe.is_passed p' = false
                      /\ 0 <= get_width (fst (Pipe.mini_pipes p')))
             /\ map fst (List.filter (fun q => negb (snd q)) marked2)
                = map fst (List.filter (fun q => negb (snd q)) marked) ++ tail
             /\ (tail = [] \/ tail = [Pipe.new Engine.PIPE_POSITION_X img drawn])
             /\ Engine.score e2 = Engine.score e + Z.of_nat (length tail)).
  { destruct create.
    - unfold Engine.on_pass, getitem.
      rewrite (get_assets_same e e1) by exact Has1. rewrite Himg. cbn [bind].
      eexists _, _, [Pipe.new Engine.PIPE_POSITION_X img drawn].
      split; [reflexivity|]. simpl.
      split; [exact Ha1|]. split; [exact Hpl1|]. split; [exact Has1|].
      split; [reflexivity|].
      split; [right; eexists _, _; split; [reflexivity|]; simpl; auto|].
      split; [apply filter_unmarked_last|]. split; [auto | lia].
    - exists marked, e1, []. split; [reflexivity|].
      split; [exact Ha1|]. split; [exact Hpl1|]. split; [exact Has1|].
      split; [reflexivity|].
      split.
      { destruct Hlast as [Hnil | (marked0 & p' & mark & -> & H)]; [left; exact Hnil|].
        destruct H as [H | (-> & Hp' & Hw')]; [discriminate|].
        right. exists marked0, p'. auto. }
      split; [rewrite app_nil_r; reflexivity|]. split; [auto | simpl; lia]. }
  destruct H2 as (marked2 & e2 & tail & -> & Ha2 & Hpl2 & Has2 & Hb2 & Hlast2
                  & Hfilter & Htail & Hsc2).
  cbn [bind].
  set (e3 := Engine.set_pipes _ e2).
  destruct (scan_border_keeps e3 Ha2 Hpl2)
    as (e' & -> & Ha' & Hpl' & Has' & Hp' & Hs' & Hnil').
  exists e', tail. split; [reflexivity|]. split; [split|].
  - eapply ready_same; [exact Hr | exact Ha' | exact Hpl' |].
    rewrite Has'. exact Has2.
  - destruct Hlast2 as [Hnil | (marked0 & p' & -> & Hpass' & Hw')].
    + left. apply Hnil'. simpl. rewrite Hb2. exact Hnil.
    + right. rewrite Hp'. unfold e3. simpl. rewrite filter_unmarked_last.
      eexists _, p'. auto.
  - rewrite Hp', Hs'. unfold e3. simpl. rewrite Hfilter, map_app, Hmarks.
    split; [reflexivity|]. split; [|exact Hsc2].
    destruct Htail as [-> | ->]; [left; reflexivity | right; exists img; auto].
Qed.

Lemma move_pipes_running (drawn : Z) (e : Engine.t) :
  running e -> Engine.birds e <> [] ->
  exists e', Engine.move_pipes drawn e = Ok e' /\ running e'.
Proof.
  intros Hr Hne. destruct (move_pipes_spec drawn e Hr Hne) as (e' & tail & He & Hr' & _).
  exists e'. auto.
Qed.

(** In a frame every pipe goes 5 to the left, the pipes that were off the
    window before the move are dropped, the others keep their order, and at
    most one new pipe, at 650, comes last; the score grows by 1 exactly when
    it does. *)
Theorem pipes_advance (drawn : Z) (e : Engine.t) :
  running e -> Engine.birds e <> [] ->
  exists e' tail,
    Engine.move_pipes drawn e = Ok e'
    /\ map outline (Engine.pipes e')
       = map outline
           (map Pipe.move
                (List.filter (fun p => negb (Pipe.is_window_passed p)) (Engine.pipes e)))
         ++ map outline tail
    /\ (tail = []
        \/ exists img, Engine.get_assets e Engine.PIPE_IMAGE !! 0%nat = Some img
                       /\ tail = [Pipe.new Engine.PIPE_POSITION_X img drawn])
    /\ Engine.score e' = Engine.score e + Z.of_nat (length tail).
Proof.
  intros Hr Hne.
  destruct (move_pipes_spec drawn e Hr Hne) as (e' & tail & He & _ & H).
  exists e', tail. auto.
Qed.

Lemma frame_running (drawn : Z) (e : Engine.t) :
  running e -> Engine.birds e <> [] ->
  exists e', Engine.frame drawn e = Ok e' /\ running e'.
Proof.
  intros Hr Hne. unfold Engine.frame.
  destruct (emulate_birds_running e Hr Hne) as (e1 & -> & Hr1 & Hne1). cbn [bind].
  destruct (move_pipes_running drawn e1 Hr1 Hne1) as (e2 & -> & Hr2). cbn [bind].
  apply draw_window_running. exact Hr2.
Qed.

Lemma run_frames_running (draws : list Z) :
  forall e, running e -> exists e', Engine.run_frames draws e = Ok e' /\ running e'.
Proof.
  induction draws as [|drawn draws IH]; intros e Hr.
  - exists e. auto.
  - cbn [Engine.run_frames]. destruct (Engine.birds e) as [|b bs] eqn:Eb.
    + exists e. auto.
    + destruct (frame_running drawn e Hr) as (e1 & -> & Hr1).
      { rewrite Eb. discriminate. }
      cbn [bind]. apply IH. exact Hr1.
Qed.

Lemma setup_running (brain : Z -> Q * Q * Q -> Q) (batch : list Z) (drawn : Z)
    (e : Engine.t) :
  ready e ->
  exists e' img,
    Engine.setup brain batch drawn e = Ok e' /\ running e'
    /\ Engine.pipes e' = [Pipe.new Engine.PIPE_POSITION_X img drawn]
    /\ 0 <= get_width img
    /\ Engine.score e' = 0.
Proof.
  intros Hr. pose proof Hr as (Ha & Hpl & (img & Himg & Hw) & Hbase & Hbg & Hbird).
  destruct (lookup_head (Engine.get_assets e Engine.BIRD_IMAGE))
    as [[H _]|(bimg & _ & Hb0)]; [contradiction|].
  unfold Engine.setup.
  change (Engine.get_assets (Engine.set_score 0 e)) with (Engine.get_assets e).
  unfold getitem. rewrite Himg. cbn [bind].
  destruct (lookup_head (Engine.get_assets e Engine.BASE_IMAGE)) as [[H _]|(x & _ & ->)];
    [contradiction|].
  destruct (lookup_head (Engine.get_assets e Engine.BACKGROUND_IMAGE))
    as [[H _]|(y & _ & ->)]; [contradiction|].
  cbn [bind].
  destruct (add_agents_spec brain _ _ Hb0 batch (Engine.set_score 0 e))
    as (e1 & He1 & Eb & _ & _ & _ & _ & _ & Es & Ea).
  rewrite He1. cbn [bind]. eexists _, img. split; [reflexivity|].
  assert (Ha1 : aligned e1).
  { eapply add_agents_aligned; [|exact He1]. exact Ha. }
  split; [split|].
  - eapply ready_same; [exact Hr | exact Ha1 | | exact Ea].
    simpl. rewrite Eb. apply Forall_app. split; [exact Hpl|].
    apply Forall_forall. intros b Hb.
    apply list_elem_of_In, in_map_iff in Hb as (g & <- & _).
    split; [reflexivity | exact Hbird].
  - right. exists [], (Pipe.new Engine.PIPE_POSITION_X img drawn).
    split; [reflexivity|]. split; [reflexivity | exact Hw].
  - simpl. rewrite Es. auto.
Qed.

Lemma main_ready (bird1 bird2 bird3 base bg pipe : Surface) :
  0 <= get_width pipe -> ready (Main.game_engine bird1 bird2 bird3 base bg pipe).
Proof.
  intros Hw. split; [split; reflexivity|]. split; [constructor|].
  split; [exists pipe; split; [reflexivity | exact Hw]|].
  split; [discriminate|]. split; discriminate.
Qed.

(** A generation never raises.  The engine [main.py] makes is ready: its
    lists are aligned and the four kinds of assets are loaded.  And on a
    ready engine [run_ne] returns, whatever the genomes, the networks, the
    heights drawn and the number of frames, and leaves the engine ready for
    the next generation.  In particular there is always a pipe to aim at:
    the last pipe stays until it is passed, and then a new one is made. *)
Theorem generation_never_raises :
  (forall bird1 bird2 bird3 base bg pipe : Surface,
     0 <= get_width pipe -> ready (Main.game_engine bird1 bird2 bird3 base bg pipe))
  /\ (forall (brain : Z -> Q * Q * Q -> Q) (batch : list Z) (drawn : Z)
             (draws : list Z) (e : Engine.t),
        ready e ->
        exists e', Engine.run_ne brain batch drawn draws e = Ok e' /\ ready e').
Proof.
  split; [exact main_ready|].
  intros brain batch drawn draws e Hr. unfold Engine.run_ne.
  destruct (setup_running brain batch drawn e Hr) as (e1 & img & -> & Hr1 & _).
  cbn [bind].
  destruct (run_frames_running draws e1 Hr1) as (e' & -> & [Hr' _]).
  exists e'. auto.
Qed.

(** ** The drawing *)

Lemma draw_still (b : Bird.t) :
  Bird.images b <> [] ->
  exists b',
    Bird.draw b = Ok b'
    /\ Bird.animation_frame b' = Bird.animation_frame b + 1
    /\ (Bird.agent b', Bird.position b', Bird.rotation b', Bird.velocity b',
        Bird.jump_position b', Bird.tick_frame b', Bird.images b')
       = (Bird.agent b, Bird.position b, Bird.rotation b, Bird.velocity b,
          Bird.jump_position b, Bird.tick_frame b, Bird.images b).
Proof.
  intros Him. unfold Bird.draw.
  destruct (Bird.images b) as [|i0 imgs] eqn:E; [contradiction|].
  set (len := Z.of_nat (length (i0 :: imgs))).
  assert (Hlen : 0 < len) by (unfold len; simpl; lia).
  pose proof (Z.mod_pos_bound (Bird.animation_frame b + 1) len Hlen) as Hr.
  destruct (lookup_lt_is_Some_2 (i0 :: imgs)
              (Z.to_nat ((Bird.animation_frame b + 1) mod len))) as [img Himg].
  { unfold len in *. lia. }
  unfold getitem. rewrite Himg. cbn [bind]. eexists. split; [reflexivity|].
  simpl. auto.
Qed.

(** [draw_window] never raises when every bird has an image, and changes
    nothing that matters to the simulation: every bird is one animation
    frame further, and its position, velocity, counters and rotation are
    the same; so are the pipes, the score, the genomes, their fitness and
    the networks. *)
Theorem drawing_only_animates (e : Engine.t) :
  Forall (fun b => Bird.images b <> []) (Engine.birds e) ->
  exists e',
    Engine.draw_window e = Ok e'
    /\ map Bird.animation_frame (Engine.birds e')
       = map (fun b => Bird.animation_frame b + 1) (Engine.birds e)
    /\ map (fun b => (Bird.agent b, Bird.position b, Bird.rotation b, Bird.velocity b,
                      Bird.jump_position b, Bird.tick_frame b, Bird.images b))
           (Engine.birds e')
       = map (fun b => (Bird.agent b, Bird.position b, Bird.rotation b, Bird.velocity b,
                        Bird.jump_position b, Bird.tick_frame b, Bird.images b))
             (Engine.birds e)
    /\ Engine.pipes e' = Engine.pipes e
    /\ Engine.score e' = Engine.score e
    /\ Engine.genomes e' = Engine.genomes e
    /\ Engine.fitness e' = Engine.fitness e
    /\ Engine.networks e' = Engine.networks e.
Proof.
  intros H. unfold Engine.draw_window.
  assert (Hd : exists bs,
             Engine.draw_birds (Engine.birds e) = Ok bs
             /\ map Bird.animation_frame bs
                = map (fun b => Bird.animation_frame b + 1) (Engine.birds e)
             /\ map (fun b => (Bird.agent b, Bird.position b, Bird.rotation b,
                               Bird.velocity b, Bird.jump_position b,
                               Bird.tick_frame b, Bird.images b)) bs
                = map (fun b => (Bird.agent b, Bird.position b, Bird.rotation b,
                                 Bird.velocity b, Bird.jump_position b,
                                 Bird.tick_frame b, Bird.images b)) (Engine.birds e)).
  { induction H as [|b bs Hb Hbs IH].
    - exists []. auto.
    - destruct (draw_still b Hb) as (b' & Hd & Ha & Hs).
      destruct IH as (bs' & Hds & Has & Hss).
      cbn [Engine.draw_birds]. rewrite Hd. cbn [bind]. rewrite Hds. cbn [bind].
      exists (b' :: bs'). split; [reflexivity|]. cbn [map].
      rewrite Ha, Has, Hs, Hss. auto. }
  destruct Hd as (bs & -> & Ha & Hs). cbn [bind].
  eexists. split; [reflexivity|]. simpl. auto 10.
Qed.

(** The lone bird after its first frame. *)
Lemma drawing_only_animates_witness :
  exists e',
    Engine.draw_window (Scene.state_of (loner 1)) = Ok e'
    /\ Engine.score e' = Engine.score (Scene.state_of (loner 1)).
Proof.
  destruct (drawing_only_animates (Scene.state_of (loner 1)))
    as (e' & He & _ & _ & _ & Hs & _).
  - vm_compute. repeat constructor. discriminate.
  - exists e'. auto.
Defined.

Lemma running_checked (e : Engine.t) (img : Surface) (p : Pipe.t) :
  map Bird.agent (Engine.birds e) = Engine.genomes e ->
  map Engine.net_agent (Engine.networks e) = Engine.genomes e ->
  forallb (fun b => (fst (Bird.position b) =? Engine.BIRD_POSITION_X)
                    && negb (Nat.eqb (length (Bird.images b)) 0))
          (Engine.birds e) = true ->
  Engine.get_assets e Engine.PIPE_IMAGE !! 0%nat = Some img ->
  0 <= get_width img ->
  Engine.get_assets e Engine.BASE_IMAGE <> [] ->
  Engine.get_assets e Engine.BACKGROUND_IMAGE <> [] ->
  Engine.get_assets e Engine.BIRD_IMAGE <> [] ->
  Engine.pipes e = removelast (Engine.pipes e) ++ [p] ->
  Pipe.is_passed p = false ->
  0 <= get_width (fst (Pipe.mini_pipes p)) ->
  running e.
Proof.
  intros Hb Hn Hpl Himg Hw Hbase Hbg Hbird Hps Hpass Hwp.
  split; [split; [split; assumption|]|].
  - split.
    + apply Forall_forall. intros b Hin. apply list_elem_of_In in Hin.
      rewrite forallb_forall in Hpl. specialize (Hpl b Hin).
      apply andb_true_iff in Hpl as [Hx Hi]. apply Z.eqb_eq in Hx.
      split; [exact Hx|]. intros E. rewrite E in Hi. discriminate.
    + split; [exists img; auto | auto].
  - right. exists (removelast (Engine.pipes e)), p. auto.
Qed.

(** The frame in which the lone bird passes the first pipe. *)
Lemma pipes_advance_witness :
  exists (e' : Engine.t) (tail : list Pipe.t),
    Engine.move_pipes 50 (Scene.state_of (Scene.then_emulate (loner 87))) = Ok e'
    /\ Engine.score e'
       = Engine.score (Scene.state_of (Scene.then_emulate (loner 87)))
         + Z.of_nat (length tail).
Proof.
  destruct (pipes_advance 50 (Scene.state_of (Scene.then_emulate (loner 87))))
    as (e' & tail & He & _ & _ & Hs).
  - apply (running_checked _ Scene.slit
             (Nat.iter 87 Pipe.move (Pipe.new Engine.PIPE_POSITION_X Scene.slit 50)));
      try computed; vm_compute; discriminate.
  - vm_compute. discriminate.
  - exists e', tail. auto.
Defined.

(** The engine of [main.py], three genomes and four frames. *)
Lemma generation_never_raises_witness :
  exists e',
    Engine.run_ne Scene.hover [1; 2; 3] 449 [449; 449; 449; 449]
      (Main.game_engine Scene.dot Scene.dot Scene.dot Scene.dot Scene.dot Scene.trunk)
    = Ok e'.
Proof.
  destruct generation_never_raises as [Hmain Hgen].
  destruct (Hgen Scene.hover [1; 2; 3] 449 [449; 449; 449; 449]
              (Main.game_engine Scene.dot Scene.dot Scene.dot
                                Scene.dot Scene.dot Scene.trunk))
    as (e' & He & _).
  - apply Hmain. vm_compute. discriminate.
  - exists e'. exact He.
Defined.

(** ** The score *)

Lemma collide_flags (i : nat) (bird : Bird.t) (e e' : Engine.t) (pipe pipe' : Pipe.t)
    (create create' : bool) :
  fst (Bird.position bird) = Engine.BIRD_POSITION_X ->
  Engine.collide i bird (e, pipe, create) = Ok (e', pipe', create') ->
  Pipe.is_passed pipe'
  = Pipe.is_passed pipe || (Pipe.position_x pipe <? Engine.BIRD_POSITION_X)
  /\ create'
     = create || (negb (Pipe.is_passed pipe)
                  && (Pipe.position_x pipe <? Engine.BIRD_POSITION_X)).
Proof.
  intros Hx H. unfold Engine.collide in H. apply bind_Ok in H as (e1 & _ & H).
  destruct (Pipe.is_passed pipe) eqn:Hp; cbn [negb] in H.
  - injection H as _ <- <-. rewrite Hp, orb_false_r. auto.
  - unfold Pipe.is_bird_passed in H. rewrite Hx in H.
    destruct (Pipe.position_x pipe <? Engine.BIRD_POSITION_X); cbn [Pipe.is_passed] in H.
    + injection H as _ <- <-. destruct create; auto.
    + rewrite Hp in H. injection H as _ <- <-. rewrite Hp. destruct create; auto.
Qed.

Lemma collide_paced (e0 : Engine.t) (pipe0 : Pipe.t) (i : nat) (bird : Bird.t)
    (s : Engine.t * Pipe.t * bool) :
  keeping e0 pipe0 s -> Engine.birds (fst (fst s)) !! i = Some bird ->
  exists s', Engine.collide i bird s = Ok s' /\ keeping e0 pipe0 s'
             /\ Pipe.is_passed (snd (fst s'))
                = Pipe.is_passed (snd (fst s))
                  || (Pipe.position_x pipe0 <? Engine.BIRD_POSITION_X)
             /\ snd s'
                = snd s || (negb (Pipe.is_passed (snd (fst s)))
                            && (Pipe.position_x pipe0 <? Engine.BIRD_POSITION_X)).
Proof.
  intros Hk Hi.
  destruct (collide_keeping e0 pipe0 i bird s Hk Hi) as (s' & Hc & Hk' & _).
  exists s'. split; [exact Hc|]. split; [exact Hk'|].
  destruct s as [[e pipe] create], s' as [[e' pipe'] create'].
  destruct Hk as (_ & Hpl & _ & _ & Ho). cbn [fst snd] in *.
  apply outline_eq in Ho as (<- & _).
  eapply collide_flags; [|exact Hc].
  apply (placed_lookup _ _ _ Hpl Hi).
Qed.

Lemma scan_birds_passed (e0 : Engine.t) (pipe0 : Pipe.t)
    (s : Engine.t * Pipe.t * bool) :
  keeping e0 pipe0 s -> Pipe.is_passed (snd (fst s)) = true ->
  exists s', Engine.scan_birds s = Ok s' /\ keeping e0 pipe0 s'
             /\ Pipe.is_passed (snd (fst s')) = true /\ snd s' = snd s.
Proof.
  intros Hk Hp. unfold Engine.scan_birds, Engine.for_enumerate.
  destruct (loop_upto_total (fun s : Engine.t * Pipe.t * bool => Engine.birds (fst (fst s)))
              Engine.collide
              (fun s1 => keeping e0 pipe0 s1 /\ Pipe.is_passed (snd (fst s1)) = true
                         /\ snd s1 = snd s))
    with (n := length (Engine.birds (fst (fst s)))) (i := 0%nat) (s := s)
    as (s' & Hl & HP).
  - intros i x s1 (Hk1 & Hp1 & Hc1) Hx.
    destruct (collide_paced e0 pipe0 i x s1 Hk1 Hx) as (s2 & Hc & Hk2 & Hp2 & Hc2).
    exists s2. split; [exact Hc|]. split; [exact Hk2|].
    rewrite Hp2, Hc2, Hp1, Hc1. simpl. rewrite orb_false_r. auto.
  - auto.
  - exists s'. auto.
Qed.

Lemma scan_birds_fresh (e0 : Engine.t) (pipe0 : Pipe.t)
    (s : Engine.t * Pipe.t * bool) :
  keeping e0 pipe0 s -> Pipe.is_passed (snd (fst s)) = false ->
  Engine.birds (fst (fst s)) <> [] ->
  exists s', Engine.scan_birds s = Ok s' /\ keeping e0 pipe0 s'
             /\ Pipe.is_passed (snd (fst s'))
                = (Pipe.position_x pipe0 <? Engine.BIRD_POSITION_X)
             /\ snd s' = snd s || (Pipe.position_x pipe0 <? Engine.BIRD_POSITION_X).
Proof.
  intros Hk Hp Hne. unfold Engine.scan_birds, Engine.for_enumerate.
  destruct (Engine.birds (fst (fst s))) as [|b0 bs] eqn:Eb; [contradiction|].
  cbn [length Engine.loop_upto]. rewrite Eb. cbn [lookup list_lookup].
  destruct (collide_paced e0 pipe0 0 b0 s Hk) as (s1 & -> & Hk1 & Hp1 & Hc1).
  { rewrite Eb. reflexivity. }
  cbn [bind]. rewrite Hp in Hp1, Hc1. cbn [negb orb andb] in Hp1, Hc1.
  destruct (loop_upto_total (fun s : Engine.t * Pipe.t * bool => Engine.birds (fst (fst s)))
              Engine.collide
              (fun s2 => keeping e0 pipe0 s2
                         /\ Pipe.is_passed (snd (fst s2))
                            = (Pipe.position_x pipe0 <? Engine.BIRD_POSITION_X)
                         /\ snd s2
                            = snd s || (Pipe.position_x pipe0 <? Engine.BIRD_POSITION_X)))
    with (n := length bs) (i := 1%nat) (s := s1) as (s' & Hl & HP).
  - intros i x s2 (Hk2 & Hp2 & Hc2) Hx.
    destruct (collide_paced e0 pipe0 i x s2 Hk2 Hx) as (s3 & Hc & Hk3 & Hp3 & Hc3).
    exists s3. split; [exact Hc|]. split; [exact Hk3|].
    rewrite Hp3, Hc3, Hp2, Hc2.
    destruct (Pipe.position_x pipe0 <? Engine.BIRD_POSITION_X), (snd s); auto.
  - auto.
  - exists s'. auto.
Qed.

Lemma scan_pipes_paced (e0 : Engine.t) (p : Pipe.t) (ps : list Pipe.t) :
  Forall (fun q => Pipe.is_passed q = true) ps -> Pipe.is_passed p = false ->
  forall (e : Engine.t) (create : bool),
    aligned e -> Forall placed (Engine.birds e) ->
    Engine.assets e = Engine.assets e0 -> Engine.score e = Engine.score e0 ->
    exists marked e' create',
      Engine.scan_pipes (ps ++ [p]) e create = Ok (marked, e', create')
      /\ (Engine.birds e' = []
          \/ (create' = create || (Pipe.position_x p <? Engine.BIRD_POSITION_X)
              /\ exists marked0 p',
                   marked = marked0 ++ [(p', Pipe.is_window_passed p)]
                   /\ Forall (fun m => Pipe.is_passed (fst m) = true) marked0
                   /\ Pipe.is_passed p'
                      = (Pipe.position_x p <? Engine.BIRD_POSITION_X)
                   /\ outline p' = outline (Pipe.move p))).
Proof.
  intros Hps Hpass. induction Hps as [|q ps Hq Hps IH]; intros e create Ha Hpl Has Hsc.
  - cbn [app Engine.scan_pipes].
    destruct (Engine.birds e) as [|b0 bs] eqn:Eb.
    + rewrite scan_birds_empty by exact Eb. cbn [bind].
      eexists _, _, _. split; [reflexivity|]. left. exact Eb.
    + destruct (scan_birds_fresh e0 p (e, p, create))
        as ([[e1 p1] c1] & -> & H1 & Hp1 & Hc1).
      { unfold keeping. cbn [fst snd]. rewrite Eb. auto 10. }
      { exact Hpass. }
      { cbn [fst]. rewrite Eb. discriminate. }
      destruct H1 as (_ & _ & _ & _ & Ho1).
      apply outline_eq in Ho1 as (Ex & Em & Ey & Eh).
      cbn [fst snd bind] in *.
      eexists _, _, _. split; [reflexivity|].
      right. split; [exact Hc1|]. exists [], (Pipe.move p1).
      split.
      { unfold Pipe.is_window_passed. rewrite Ex, Em. reflexivity. }
      split; [constructor|]. split; [exact Hp1|].
      unfold outline. simpl. rewrite Ex, Em, Ey, Eh. reflexivity.
  - cbn [app Engine.scan_pipes].
    destruct (scan_birds_passed e0 q (e, q, create)) as ([[e1 q1] c1] & -> & H1 & Hq1 & Hc1).
    { unfold keeping. cbn [fst snd]. auto 10. }
    { exact Hq. }
    destruct H1 as (Ha1 & Hpl1 & Has1 & Hsc1 & _). cbn [fst snd bind] in *. subst c1.
    destruct (IH e1 create Ha1 Hpl1 Has1 Hsc1) as (marked & e' & create' & -> & Hlast).
    cbn [bind]. eexists _, _, _. split; [reflexivity|].
    destruct Hlast as [Hnil | (Hc & marked0 & p' & -> & Hm0 & H)]; [left; exact Hnil|].
    right. split; [exact Hc|].
    exists ((Pipe.move q1, Pipe.is_window_passed q1) :: marked0), p'.
    split; [reflexivity|]. split; [|exact H].
    constructor; [exact Hq1 | exact Hm0].
Qed.

Lemma filter_passed (marked : list (Pipe.t * bool)) :
  Forall (fun m => Pipe.is_passed (fst m) = true) marked ->
  Forall (fun q => Pipe.is_passed q = true)
         (map fst (List.filter (fun q => negb (snd q)) marked)).
Proof.
  induction 1 as [|[q mark] marked Hq Hm IH]; [constructor|].
  simpl. destruct mark; simpl; [exact IH | constructor; assumption].
Qed.

Lemma move_pipes_paced (r drawn : Z) (e : Engine.t) :
  running e -> Engine.birds e <> [] -> paced r e -> 0 <= r < pass_period ->
  exists e',
    Engine.move_pipes drawn e = Ok e'
    /\ (Engine.birds e' = []
        \/ (paced ((r + 1) mod pass_period) e'
            /\ Engine.score e' = Engine.score e + (r + 1) / pass_period)).
Proof.
  intros [Hr _] Hne (ps & p & Hps & Hpassed & Hpass & Hx & Hw) Hrange.
  pose proof Hr as (Ha & Hpl & (img & Himg & Hwimg) & _).
  change pass_period with 88 in *.
  unfold Engine.PIPE_POSITION_X, Pipe.PIPE_VELOCITY in Hx.
  unfold Engine.move_pipes.
  destruct (scan_pipes_keeping e (Engine.pipes e) e false Ha Hpl eq_refl eq_refl)
    as (marked & e1 & create & Hscan & Ha1 & Hpl1 & Has1 & Hsc1 & _).
  destruct (scan_pipes_paced e p ps Hpassed Hpass e false Ha Hpl eq_refl eq_refl)
    as (marked' & e1' & create' & Hscan' & Hlast).
  rewrite <- Hps, Hscan in Hscan'. injection Hscan' as <- <- <-.
  rewrite Hscan. cbn [bind].
  assert (Hwin : Pipe.is_window_passed p = false).
  { unfold Pipe.is_window_passed. apply Z.ltb_ge. lia. }
  assert (H2 : exists marked2 e2,
             (if create then Engine.on_pass drawn marked e1 else Ok (marked, e1))
             = Ok (marked2, e2)
             /\ aligned e2 /\ Forall placed (Engine.birds e2)
             /\ Engine.birds e2 = Engine.birds e1
             /\ (Engine.birds e1 = []
                 \/ (paced ((r + 1) mod 88)
                       (Engine.set_pipes
                          (map fst (List.filter (fun q => negb (snd q)) marked2)) e2)
                     /\ Engine.score e2 = Engine.score e + (r + 1) / 88))).
  { destruct Hlast as [Hnil | (Hc & marked0 & p' & -> & Hm0 & Hp' & Ho')].
    - destruct create.
      + unfold Engine.on_pass, getitem.
        rewrite (get_assets_same e e1) by exact Has1. rewrite Himg. cbn [bind].
        eexists _, _. split; [reflexivity|]. simpl. auto 10.
      + eexists _, _. split; [reflexivity|]. auto 10.
    - rewrite Hwin in *. cbn [orb] in Hc.
      apply outline_eq in Ho' as (Ex' & Em' & _). simpl in Ex', Em'.
      destruct (Z.ltb_spec (Pipe.position_x p) Engine.BIRD_POSITION_X) as [Hlt | Hge];
        unfold Engine.BIRD_POSITION_X in *; subst create.
      + assert (r = 87) by lia. subst r.
        unfold Engine.on_pass, getitem.
        rewrite (get_assets_same e e1) by exact Has1. rewrite Himg. cbn [bind].
        eexists _, _. split; [reflexivity|]. simpl.
        split; [exact Ha1|]. split; [exact Hpl1|]. split; [reflexivity|]. right.
        split; [|rewrite Hsc1; reflexivity].
        exists (map fst (List.filter (fun q => negb (snd q)) marked0) ++ [p']),
               (Pipe.new Engine.PIPE_POSITION_X img drawn).
        split.
        { simpl. rewrite !filter_unmarked_last. reflexivity. }
        split.
        { apply Forall_app. split; [apply filter_passed, Hm0|].
          constructor; [exact Hp' | constructor]. }
        split; [reflexivity|]. split; [reflexivity | exact Hwimg].
      + assert (r < 87) by lia.
        eexists _, _. split; [reflexivity|].
        split; [exact Ha1|]. split; [exact Hpl1|]. split; [reflexivity|]. right.
        rewrite Z.mod_small, Z.div_small by lia.
        split; [|rewrite Hsc1; lia].
        exists (map fst (List.filter (fun q => negb (snd q)) marked0)), p'.
        split; [simpl; apply filter_unmarked_last|].
        split; [apply filter_passed, Hm0|]. split; [exact Hp'|].
        unfold Engine.PIPE_POSITION_X, Pipe.PIPE_VELOCITY. rewrite Ex', Em'.
        unfold Pipe.PIPE_VELOCITY. split; [lia | exact Hw]. }
  destruct H2 as (marked2 & e2 & -> & Ha2 & Hpl2 & Hb2 & Hlast2). cbn [bind].
  set (e3 := Engine.set_pipes _ e2) in *.
  destruct (scan_border_keeps e3 Ha2 Hpl2)
    as (e' & -> & Ha' & Hpl' & Has' & Hp' & Hs' & Hnil').
  exists e'. split; [reflexivity|].
  destruct Hlast2 as [Hnil | [(ps' & p' & Hps' & H) Hscore]].
  - left. apply Hnil'. simpl. rewrite Hb2. exact Hnil.
  - right. split; [|rewrite Hs'; exact Hscore].
    exists ps', p'. rewrite Hp'. split; [exact Hps' | exact H].
Qed.

Lemma paced_same (r : Z) (e e' : Engine.t) :
  Engine.pipes e' = Engine.pipes e -> paced r e -> paced r e'.
Proof. unfold paced. intros ->. auto. Qed.

Lemma emulate_bird_pipes_score (current i : nat) (bird : Bird.t) (e e' : Engine.t) :
  Engine.emulate_bird current i bird e = Ok e' ->
  Engine.pipes e' = Engine.pipes e /\ Engine.score e' = Engine.score e.
Proof.
  unfold Engine.emulate_bird. intros H.
  apply bind_Ok in H as (g & _ & H). apply bind_Ok in H as (net & _ & H).
  apply bind_Ok in H as (pipe & _ & H).
  destruct (Qltb _ _); injection H as <-; auto.
Qed.

Lemma frame_paced (r drawn : Z) (e : Engine.t) :
  running e -> Engine.birds e <> [] -> paced r e -> 0 <= r < pass_period ->
  exists e',
    Engine.frame drawn e = Ok e' /\ running e'
    /\ (Engine.birds e' = []
        \/ (paced ((r + 1) mod pass_period) e'
            /\ Engine.score e' = Engine.score e + (r + 1) / pass_period)).
Proof.
  intros Hr Hne Hp Hrange.
  destruct (frame_running drawn e Hr Hne) as (e' & Hf & Hr').
  exists e'. split; [exact Hf|]. split; [exact Hr'|].
  unfold Engine.frame in Hf.
  destruct (emulate_birds_running e Hr Hne) as (e1 & He1 & Hr1 & Hne1).
  rewrite He1 in Hf. cbn [bind] in Hf.
  assert (Hsame : Engine.pipes e1 = Engine.pipes e /\ Engine.score e1 = Engine.score e).
  { unfold Engine.emulate_birds, Engine.for_enumerate in He1.
    apply (loop_upto_invariant Engine.birds
             (Engine.emulate_bird (Engine.current_pipe_index e))
             (fun s => Engine.pipes s = Engine.pipes e
                       /\ Engine.score s = Engine.score e))
      with (n := length (Engine.birds e)) (i := 0%nat) (s := e); [|auto|exact He1].
    intros i x s s' [Hps Hss] Hx Hb.
    apply emulate_bird_pipes_score in Hb as [-> ->]. auto. }
  destruct Hsame as [Hp1 Hs1].
  destruct (move_pipes_paced r drawn e1 Hr1 Hne1 (paced_same r e e1 Hp1 Hp) Hrange)
    as (e2 & He2 & Hlast).
  rewrite He2 in Hf. cbn [bind] in Hf.
  unfold Engine.draw_window in Hf. apply bind_Ok in Hf as (bs & Hd & Hf).
  injection Hf as <-. simpl.
  destruct Hlast as [Hnil | [Hp2 Hs2]].
  - left. rewrite Hnil in Hd. simpl in Hd. injection Hd as <-. reflexivity.
  - right. split; [exact Hp2 | congruence].
Qed.

Lemma run_frames_over (draws : list Z) (e : Engine.t) :
  Engine.birds e = [] -> Engine.run_frames draws e = Ok e.
Proof. intros H. destruct draws; simpl; [|rewrite H]; reflexivity. Qed.

Lemma run_frames_paced (draws : list Z) :
  forall (e : Engine.t) (F : Z),
    0 <= F -> running e -> paced (F mod pass_period) e ->
    Engine.score e = F / pass_period ->
    exists e',
      Engine.run_frames draws e = Ok e'
      /\ (Engine.birds e' <> [] ->
          Engine.score e' = (F + Z.of_nat (length draws)) / pass_period).
Proof.
  induction draws as [|drawn draws IH]; intros e F HF Hr Hp Hs.
  - exists e. split; [reflexivity|]. intros _. simpl. rewrite Z.add_0_r. exact Hs.
  - destruct (Engine.birds e) as [|b bs] eqn:Eb.
    { exists e. rewrite run_frames_over by exact Eb. split; [reflexivity|].
      rewrite Eb. congruence. }
    change pass_period with 88 in *.
    pose proof (Z.mod_pos_bound F 88 ltac:(lia)) as Hrange.
    destruct (frame_paced (F mod 88) drawn e Hr) as (e1 & Hf & Hr1 & Hlast);
      [rewrite Eb; discriminate | exact Hp | exact Hrange |].
    cbn [Engine.run_frames]. rewrite Eb, Hf. cbn [bind].
    destruct Hlast as [Hnil | [Hp1 Hs1]].
    + exists e1. rewrite run_frames_over by exact Hnil. split; [reflexivity|].
      rewrite Hnil. congruence.
    + change pass_period with 88 in *.
      pose proof (Z.div_mod F 88 ltac:(lia)) as Hdm.
      assert (Hmod : (F mod 88 + 1) mod 88 = (F + 1) mod 88).
      { apply Zplus_mod_idemp_l. }
      assert (Hdiv : F / 88 + (F mod 88 + 1) / 88 = (F + 1) / 88).
      { replace (F + 1) with (F mod 88 + 1 + (F / 88) * 88) by lia.
        rewrite Z.div_add by lia. lia. }
      destruct (IH e1 (F + 1)) as (e' & He' & Hscore); [lia | exact Hr1 | | |].
      * change pass_period with 88. rewrite <- Hmod. exact Hp1.
      * change pass_period with 88. rewrite Hs1, Hs. exact Hdiv.
      * exists e'. split; [exact He'|]. intros Hne. rewrite (Hscore Hne).
        change pass_period with 88. f_equal. cbn [length]. lia.
Qed.

(** While a bird is left, the score of a generation is the number of its
    frames divided by 88, rounded down: a pipe made at 650 is behind the
    birds, at 220, after 87 moves, it is asked before every move, and the
    next pipe is made in the frame in which it is passed. *)
Theorem score_counts_frames (brain : Z -> Q * Q * Q -> Q) (batch : list Z)
    (drawn : Z) (draws : list Z) (e : Engine.t) :
  ready e ->
  pass_period = 88
  /\ exists e',
       Engine.run_ne brain batch drawn draws e = Ok e'
       /\ (Engine.birds e' <> [] ->
           Engine.score e' = Z.of_nat (length draws) / pass_period).
Proof.
  intros Hr. split; [reflexivity|]. unfold Engine.run_ne.
  destruct (setup_running brain batch drawn e Hr) as (e1 & img & -> & Hr1 & Hp1 & Hw & Hs1).
  cbn [bind].
  destruct (run_frames_paced draws e1 0) as (e' & He' & Hscore).
  - lia.
  - exact Hr1.
  - exists [], (Pipe.new Engine.PIPE_POSITION_X img drawn).
    split; [exact Hp1|]. split; [constructor|]. split; [reflexivity|].
    split; [reflexivity | exact Hw].
  - rewrite Hs1. reflexivity.
  - exists e'. split; [exact He' | exact Hscore].
Qed.

(** The lone bird of the engine of [main.py], for 90 frames. *)
Lemma score_counts_frames_witness :
  exists e',
    Engine.run_ne Scene.hover [1] 50 (List.repeat 50 90)
      (Main.game_engine Scene.dot Scene.dot Scene.dot Scene.dot Scene.dot Scene.slit)
    = Ok e'
    /\ Engine.score e' = 1.
Proof.
  destruct (score_counts_frames Scene.hover [1] 50 (List.repeat 50 90)
              (Main.game_engine Scene.dot Scene.dot Scene.dot
                                Scene.dot Scene.dot Scene.slit))
    as (_ & e' & He & Hs).
  - apply main_ready. vm_compute. discriminate.
  - exists e'. split; [exact He|].
    assert (Hb : match Engine.run_ne Scene.hover [1] 50 (List.repeat 50 90)
                         (Main.game_engine Scene.dot Scene.dot Scene.dot
                                           Scene.dot Scene.dot Scene.slit) with
                 | Ok e => negb (Nat.eqb (length (Engine.birds e)) 0)
                 | Raise _ => false
                 end = true) by computed.
    rewrite He in Hb. rewrite Hs; [computed|].
    intros E. rewrite E in Hb. discriminate Hb.
Defined.
